(** * benchci: benchmark regression orchestration, shallow embedding

    The program is the [main] package of benchci: it reads a list of Go
    benchmarks, runs them at a base revision, at the latest release tag and
    at HEAD, and compares the measurements.  Go strings are byte strings
    ([string]), [uint64] values are [N], [float64] values are the kernel's
    binary64 floats, Go maps are [gmap]s, and the calls that leave the
    process (git, the benchmark command) are answered by an explicit
    environment record. *)

From Stdlib Require Import ZArith NArith Lia Ascii String List Floats.
From Stdlib Require Import Sorted.
From stdpp Require Import gmap strings list fin_maps.

Set Warnings "-inexact-float".

Local Open Scope string_scope.
Local Open Scope Z_scope.
Local Open Scope list_scope.

(** ** The parts of Go's [strings] package that the program calls *)

Module GoStrings.

Definition byte_of (a : ascii) : N := N_of_ascii a.

(** [strings.HasPrefix]. *)
Definition HasPrefix (s p : string) : bool := String.prefix p s.

(** Membership of a byte in an ASCII cutset. *)
Fixpoint inCutset (a : ascii) (cutset : string) : bool :=
  match cutset with
  | EmptyString => false
  | String c cs => if Ascii.eqb a c then true else inCutset a cs
  end.

(** [strings.TrimLeft] with an ASCII cutset: every leading byte that
    belongs to the cutset is removed (it is not a prefix removal). *)
Fixpoint TrimLeft (s cutset : string) : string :=
  match s with
  | EmptyString => EmptyString
  | String a r => if inCutset a cutset then TrimLeft r cutset else s
  end.

(** [strings.CutPrefix] and [strings.TrimPrefix]: [p] is removed once
    when [s] starts with it. *)
Fixpoint CutPrefix (s p : string) : option string :=
  match p with
  | EmptyString => Some s
  | String c p' =>
      match s with
      | EmptyString => None
      | String a s' => if Ascii.eqb a c then CutPrefix s' p' else None
      end
  end.

Definition TrimPrefix (s p : string) : string :=
  match CutPrefix s p with
  | Some rest => rest
  | None => s
  end.

(** The six ASCII white space bytes of the [asciiSpace] table. *)
Definition isAsciiSpace (a : ascii) : bool :=
  let x := byte_of a in
  ((x =? 9) || (x =? 10) || (x =? 11) || (x =? 12) || (x =? 13) || (x =? 32))%N.

(** Width in bytes of the white space rune that starts [s], 0 when [s]
    does not start with one.  [unicode.IsSpace] holds of the six ASCII
    bytes, of U+0085 and U+00A0 (C2 85, C2 A0), U+1680 (E1 9A 80),
    U+2000..U+200A, U+2028, U+2029, U+202F (E2 80 xx), U+205F (E2 81 9F)
    and U+3000 (E3 80 80). *)
Definition spaceRune2 (a b : ascii) : bool :=
  ((byte_of a =? 194) && ((byte_of b =? 133) || (byte_of b =? 160)))%N.

Definition spaceRune3 (a b c : ascii) : bool :=
  let x := byte_of a in let y := byte_of b in let z := byte_of c in
  (((x =? 225) && (y =? 154) && (z =? 128))
   || ((x =? 226) && (y =? 128)
       && (((128 <=? z) && (z <=? 138)) || (z =? 168) || (z =? 169) || (z =? 175)))
   || ((x =? 226) && (y =? 129) && (z =? 159))
   || ((x =? 227) && (y =? 128) && (z =? 128)))%N.

Definition spaceWidth (s : list ascii) : nat :=
  match s with
  | [] => 0
  | a :: r =>
      if isAsciiSpace a then 1
      else match r with
           | [] => 0
           | b :: r' =>
               if spaceRune2 a b then 2
               else match r' with
                    | [] => 0
                    | c :: _ => if spaceRune3 a b c then 3 else 0
                    end
           end
  end%nat.

(** The same on the reversed bytes: width of the white space rune that
    ends the original string. *)
Definition spaceWidthRev (s : list ascii) : nat :=
  match s with
  | [] => 0
  | a :: r =>
      if isAsciiSpace a then 1
      else match r with
           | [] => 0
           | b :: r' =>
               if spaceRune2 b a then 2
               else match r' with
                    | [] => 0
                    | c :: _ => if spaceRune3 c b a then 3 else 0
                    end
           end
  end%nat.

(** Repeatedly remove the rune measured by [width]; [fuel] bounds the
    number of runes removed, and the length of [s] is always enough. *)
Fixpoint dropWhileWidth (width : list ascii -> nat) (fuel : nat) (s : list ascii)
    : list ascii :=
  match fuel with
  | O => s
  | S fuel' =>
      match width s with
      | O => s
      | S k => dropWhileWidth width fuel' (drop (S k) s)
      end
  end.

Definition trimLeftSpace (s : list ascii) : list ascii :=
  dropWhileWidth spaceWidth (length s) s.

Definition trimRightSpace (s : list ascii) : list ascii :=
  rev (dropWhileWidth spaceWidthRev (length s) (rev s)).

(** [strings.TrimSpace]: leading white space runes are removed, then
    trailing ones. *)
Definition TrimSpace (s : string) : string :=
  string_of_list_ascii (trimRightSpace (trimLeftSpace (list_ascii_of_string s))).

(** [strings.Split] with a one-byte separator; the empty string splits
    into one empty field. *)
Fixpoint Split (s : string) (sep : ascii) : list string :=
  match s with
  | EmptyString => [EmptyString]
  | String a r =>
      if Ascii.eqb a sep then EmptyString :: Split r sep
      else match Split r sep with
           | hd :: tl => String a hd :: tl
           | [] => [String a EmptyString]
           end
  end.

(** [strings.Cut] with a one-byte separator: the text before and after
    the first occurrence. *)
Fixpoint Cut (s : string) (sep : ascii) : option (string * string) :=
  match s with
  | EmptyString => None
  | String a r =>
      if Ascii.eqb a sep then Some (EmptyString, r)
      else match Cut r sep with
           | Some (before, after) => Some (String a before, after)
           | None => None
           end
  end.

(** [strings.SplitN] with a one-byte separator and [n > 0]: at most [n]
    fields, the last one holding the unsplit rest. *)
Fixpoint SplitN (s : string) (sep : ascii) (n : nat) : list string :=
  match n with
  | O => []
  | S O => [s]
  | S n' =>
      match Cut s sep with
      | None => [s]
      | Some (before, after) => before :: SplitN after sep n'
      end
  end.

End GoStrings.

(** ** The parts of github.com/blang/semver/v4 that the program calls *)

Module semver.

Record PRVersion := mkPR {
  VersionStr : string;
  VersionNum : N;
  IsNum : bool
}.

Record Version := mkVersion {
  Major : N;
  Minor : N;
  Patch : N;
  Pre : list PRVersion;
  Build : list string
}.

(** The zero value [Version{}], returned next to every parse error. *)
Definition zeroVersion : Version := mkVersion 0 0 0 [] [].

Definition numbers : string := "0123456789".
Definition alphanum : string :=
  "abcdefghijklmnopqrstuvwxyzABCDEFGHIJKLMNOPQRSTUVWXYZ0123456789-".

Fixpoint containsOnly (s set : string) : bool :=
  match s with
  | EmptyString => true
  | String a r => GoStrings.inCutset a set && containsOnly r set
  end.

Definition hasLeadingZeroes (s : string) : bool :=
  match s with
  | String a (String _ _) => Ascii.eqb a "0"%char
  | _ => false
  end.

Fixpoint digitsValue (acc : N) (s : string) : N :=
  match s with
  | EmptyString => acc
  | String a r => digitsValue (10 * acc + (N_of_ascii a - 48))%N r
  end.

(** [strconv.ParseUint(s, 10, 64)] on a string of decimal digits: the empty
    string and values above 2^64 - 1 are errors. *)
Definition ParseUint (s : string) : option N :=
  match s with
  | EmptyString => None
  | _ => let v := digitsValue 0%N s in
         if (v <=? 18446744073709551615)%N then Some v else None
  end.

(** One dotted number of MAJOR.MINOR.PATCH. *)
Definition parseNumber (s : string) : option N :=
  if negb (containsOnly s numbers) then None
  else if hasLeadingZeroes s then None
  else ParseUint s.

Definition NewPRVersion (s : string) : option PRVersion :=
  match s with
  | EmptyString => None
  | _ =>
      if containsOnly s numbers then
        if hasLeadingZeroes s then None
        else match ParseUint s with
             | Some num => Some (mkPR EmptyString num true)
             | None => None
             end
      else if containsOnly s alphanum then Some (mkPR s 0%N false)
      else None
  end.

Fixpoint parsePre (l : list string) : option (list PRVersion) :=
  match l with
  | [] => Some []
  | s :: r =>
      match NewPRVersion s with
      | None => None
      | Some p => match parsePre r with
                  | None => None
                  | Some ps => Some (p :: ps)
                  end
      end
  end.

Fixpoint parseBuild (l : list string) : option (list string) :=
  match l with
  | [] => Some []
  | s :: r =>
      match s with
      | EmptyString => None
      | _ => if containsOnly s alphanum
             then match parseBuild r with
                  | None => None
                  | Some bs => Some (s :: bs)
                  end
             else None
      end
  end.

(** [semver.Parse]: [None] stands for a non-nil error. *)
Definition Parse (s : string) : option Version :=
  match s with
  | EmptyString => None
  | _ =>
      match GoStrings.SplitN s "."%char 3 with
      | [p0; p1; p2] =>
          match parseNumber p0, parseNumber p1 with
          | Some major, Some minor =>
              let '(patchStr, build) :=
                match GoStrings.Cut p2 "+"%char with
                | Some (before, after) => (before, GoStrings.Split after "."%char)
                | None => (p2, [])
                end in
              let '(patchStr, prerelease) :=
                match GoStrings.Cut patchStr "-"%char with
                | Some (before, after) => (before, GoStrings.Split after "."%char)
                | None => (patchStr, [])
                end in
              match parseNumber patchStr with
              | Some patch =>
                  match parsePre prerelease with
                  | Some pre =>
                      match parseBuild build with
                      | Some bld => Some (mkVersion major minor patch pre bld)
                      | None => None
                      end
                  | None => None
                  end
              | None => None
              end
          | _, _ => None
          end
      | _ => None
      end
  end.

(** [semver.Make] as the program uses it, [v, _ := semver.Make(s)]: the
    version, which is the zero value when the error is non-nil. *)
Definition Make (s : string) : Version * bool :=
  match Parse s with
  | Some v => (v, true)
  | None => (zeroVersion, false)
  end.

Definition cmpN (a b : N) : Z :=
  if (a =? b)%N then 0 else if (b <? a)%N then 1 else -1.

Definition PRCompare (v o : PRVersion) : Z :=
  if IsNum v && negb (IsNum o) then -1
  else if negb (IsNum v) && IsNum o then 1
  else if IsNum v && IsNum o then cmpN (VersionNum v) (VersionNum o)
  else match String.compare (VersionStr v) (VersionStr o) with
       | Eq => 0
       | Gt => 1
       | Lt => -1
       end.

(** The loop over the prerelease fields and the length test after it. *)
Fixpoint comparePre (a b : list PRVersion) : Z :=
  match a, b with
  | [], [] => 0
  | [], _ :: _ => -1
  | _ :: _, [] => 1
  | x :: a', y :: b' =>
      let c := PRCompare x y in
      if c =? 0 then comparePre a' b' else if c =? 1 then 1 else -1
  end.

(** [Version.Compare]: build metadata takes no part. *)
Definition Compare (v o : Version) : Z :=
  if negb (Major v =? Major o)%N then (if (Major o <? Major v)%N then 1 else -1)
  else if negb (Minor v =? Minor o)%N then (if (Minor o <? Minor v)%N then 1 else -1)
  else if negb (Patch v =? Patch o)%N then (if (Patch o <? Patch v)%N then 1 else -1)
  else match Pre v, Pre o with
       | [], [] => 0
       | [], _ :: _ => 1
       | _ :: _, [] => -1
       | _, _ => comparePre (Pre v) (Pre o)
       end.

Definition GT (v o : Version) : bool := Compare v o =? 1.
Definition GTE (v o : Version) : bool := 0 <=? Compare v o.
Definition Equals (v o : Version) : bool := Compare v o =? 0.

End semver.

(** ** Version requirements *)

Definition tagVersionPrefix : string := "v".

Definition trimTagVersion (tagName : string) : string :=
  GoStrings.TrimLeft tagName tagVersionPrefix.

Definition versionRequired (required tag : string) : bool :=
  if String.eqb required "" then true
  else
    let required := GoStrings.TrimSpace required in
    let tagVer := fst (semver.Make (trimTagVersion tag)) in
    if GoStrings.HasPrefix required ">=" then
      let requiredVer :=
        fst (semver.Make (trimTagVersion (GoStrings.TrimLeft required ">="))) in
      semver.GTE tagVer requiredVer
    else if GoStrings.HasPrefix required ">" then
      let requiredVer :=
        fst (semver.Make (trimTagVersion (GoStrings.TrimLeft required ">"))) in
      semver.GT tagVer requiredVer
    else
      let requiredVer := fst (semver.Make (trimTagVersion required)) in
      semver.Equals tagVer requiredVer.

(** ** Configuration types (types.go) *)

Definition float64 := PrimFloat.float.

(** The Go comparison [x == 0] on [float64]: IEEE equality, which holds of
    both zeros and of no NaN. *)
Definition isZero64 (x : float64) : bool := PrimFloat.eqb x PrimFloat.zero.

(** The conversion [float64(n)] of a [uint64]: round to nearest, ties to
    even. *)
Definition float64_of_uint64 (n : N) : float64 :=
  SF2Prim (SpecFloat.binary_normalize FloatOps.prec FloatOps.emax (Z.of_N n) 0 false).

Record BenchmarkConfiguration := mkConfiguration {
  Benchtime : string;
  Threshold : float64;
  Compare : string;
  Cpu : string;
  Timeout : string;
  Benchmem : option bool   (* [*bool]; [None] is the nil pointer *)
}.

(** [VersionRequirement] is read by [runBenchmarks]; the declaration of the
    field is not among the source files, and the field is taken as one more
    string of the benchmark entry. *)
Record Benchmark := mkBenchmark {
  Name : string;
  Package : string;
  UniqueName : string;
  VersionRequirement : string;
  Configuration : BenchmarkConfiguration
}.

Record BenchmarkList := mkBenchmarkList {
  ListConfiguration : BenchmarkConfiguration;
  Command : string;
  Benchmarks : list Benchmark
}.

(** golang.org/x/tools/benchmark/parse: the fields of a measurement that the
    program reads, and the set of measurements of one command run. *)
Module parse.

Record Benchmark := mkBenchmark {
  Name : string;
  NsPerOp : float64;
  AllocedBytesPerOp : N
}.

Abbreviation Set_ := (gmap string (list Benchmark)).

End parse.

Record result := mkResult {
  ResultBenchmark : Benchmark;
  RatioNsPerOp : float64;
  RatioAllocedBytesPerOp : float64
}.

Record comparedScore := mkComparedScore {
  nsPerOp : bool;
  allocedBytesPerOp : bool
}.

(** [type Set map[string]*parse.Benchmark]. *)
Abbreviation BenchSet := (gmap string parse.Benchmark).

(** ** Defaulting *)

(** The tests of [applyDefaults] for a field that was not set, and the
    rule "the first value that is set wins" for one field. *)
Definition unsetString (s : string) : bool := String.eqb s "".
Definition unsetPointer {A} (p : option A) : bool :=
  match p with None => true | Some _ => false end.
Definition pick {A} (unset : A -> bool) (c d : A) : A := if unset c then d else c.

Definition applyDefaults (c d : BenchmarkConfiguration) : BenchmarkConfiguration :=
  let c := if String.eqb (Benchtime c) "" then
             mkConfiguration (Benchtime d) (Threshold c) (Compare c) (Cpu c) (Timeout c) (Benchmem c)
           else c in
  let c := if isZero64 (Threshold c) then
             mkConfiguration (Benchtime c) (Threshold d) (Compare c) (Cpu c) (Timeout c) (Benchmem c)
           else c in
  let c := if String.eqb (Compare c) "" then
             mkConfiguration (Benchtime c) (Threshold c) (Compare d) (Cpu c) (Timeout c) (Benchmem c)
           else c in
  let c := if String.eqb (Cpu c) "" then
             mkConfiguration (Benchtime c) (Threshold c) (Compare c) (Cpu d) (Timeout c) (Benchmem c)
           else c in
  let c := if String.eqb (Timeout c) "" then
             mkConfiguration (Benchtime c) (Threshold c) (Compare c) (Cpu c) (Timeout d) (Benchmem c)
           else c in
  let c := match Benchmem c with
           | None =>
               mkConfiguration (Benchtime c) (Threshold c) (Compare c) (Cpu c) (Timeout c) (Benchmem d)
           | Some _ => c
           end in
  c.

(** The body of the loop of [updateBenchmarks] for one entry. *)
Definition updateBenchmark (listConfiguration flagConfiguration : BenchmarkConfiguration)
    (benchmark : Benchmark) : Benchmark :=
  let uniqueName :=
    if String.eqb (UniqueName benchmark) "" then Name benchmark else UniqueName benchmark in
  mkBenchmark (Name benchmark) (Package benchmark) uniqueName (VersionRequirement benchmark)
    (applyDefaults (applyDefaults (Configuration benchmark) listConfiguration) flagConfiguration).

(** [updateBenchmarks] rewrites the global [benchmarks] in place; here the
    list goes in and the rewritten list comes out. *)
Definition updateBenchmarks (flagConfiguration : BenchmarkConfiguration)
    (benchmarks : BenchmarkList) : BenchmarkList :=
  mkBenchmarkList (ListConfiguration benchmarks) (Command benchmarks)
    (map (updateBenchmark (ListConfiguration benchmarks) flagConfiguration)
       (Benchmarks benchmarks)).

(** ** Report rows and the regression verdict *)

(** A table cell: literal text, or a number together with the [fmt] verb
    that prints it ([" %.2f ns/op"], [" %d B/op"], ["%.2f%%"]). *)
Inductive Cell :=
| CText (s : string)
| CNsPerOp (x : float64)
| CBytesPerOp (n : N)
| CPercent (x : float64).

Inductive Color := NoColor | BoldHiRed | BoldBlue.

Definition generateRow (ref : string) (b : parse.Benchmark) : list Cell :=
  [CText (parse.Name b); CText ref; CNsPerOp (parse.NsPerOp b);
   CBytesPerOp (parse.AllocedBytesPerOp b)].

Definition generateRatioItem (ratio : float64) : Cell :=
  let ratio :=
    if PrimFloat.ltb (-0.0001)%float ratio && PrimFloat.ltb ratio 0.0001%float
    then PrimFloat.zero else ratio in
  if PrimFloat.leb PrimFloat.zero ratio then CPercent (100 * ratio)%float
  else CPercent (-100 * ratio)%float.

Definition generateColor (ratio : float64) : Color :=
  if PrimFloat.ltb PrimFloat.zero ratio then BoldHiRed else BoldBlue.

Fixpoint scoreTokens (tokens : list string) (score : comparedScore) : comparedScore :=
  match tokens with
  | [] => score
  | cc :: rest =>
      scoreTokens rest
        (if String.eqb cc "ns/op" then mkComparedScore true (allocedBytesPerOp score)
         else if String.eqb cc "B/op" then mkComparedScore (nsPerOp score) true
         else score)
  end.

Definition whichScoreToCompare (c : string) : comparedScore :=
  scoreTokens (GoStrings.Split c ","%char) (mkComparedScore false false).

(** What the program writes to its output: the result table and the
    comparison tables. *)
Inductive Output :=
| ResultTable (rows : list (list Cell))
| ComparisonTable (compareWith : string) (rows : list (list (Cell * Color))).

Definition Writer := list Output.

(** One turn of the loop of [showRatio]: the table lines and the verdict
    so far go in and come out. *)
Definition showRatioStep (onlyRegression : bool)
    (acc : list (list (Cell * Color)) * bool) (r : result)
    : list (list (Cell * Color)) * bool :=
  let '(table, regression) := acc in
  let config := Configuration (ResultBenchmark r) in
  let score := whichScoreToCompare (Compare config) in
  let line :=
    [(CText (Name (ResultBenchmark r)), NoColor);
     (if nsPerOp score
      then (generateRatioItem (RatioNsPerOp r), generateColor (RatioNsPerOp r))
      else (CText "-", NoColor));
     (if allocedBytesPerOp score
      then (generateRatioItem (RatioAllocedBytesPerOp r),
            generateColor (RatioAllocedBytesPerOp r))
      else (CText "-", NoColor))] in
  if nsPerOp score && PrimFloat.ltb (Threshold config) (RatioNsPerOp r) then
    (table ++ [line], true)
  else if allocedBytesPerOp score
          && PrimFloat.ltb (Threshold config) (RatioAllocedBytesPerOp r) then
    (table ++ [line], true)
  else if onlyRegression then (table, regression)
  else (table ++ [line], regression).

Definition showRatio (w : Writer) (results : list result) (onlyRegression : bool)
    (compareWith : string) : Writer * bool :=
  let '(table, regression) := fold_left (showRatioStep onlyRegression) results ([], false) in
  match table with
  | [] => (w, regression)
  | _ :: _ => (w ++ [ComparisonTable compareWith table], regression)
  end.

(** The two tests that set [regression] in one turn of that loop. *)
Definition regressed (r : result) : bool :=
  let config := Configuration (ResultBenchmark r) in
  let score := whichScoreToCompare (Compare config) in
  (nsPerOp score && PrimFloat.ltb (Threshold config) (RatioNsPerOp r))
  || (allocedBytesPerOp score
      && PrimFloat.ltb (Threshold config) (RatioAllocedBytesPerOp r)).

Definition showResult (w : Writer) (rows : list (list Cell)) : Writer :=
  w ++ [ResultTable rows].

(** ** The world outside the process *)

Definition Hash := string.

(** A tag reference: [Name().String()], [Name().Short()] and [Hash()]. *)
Record Reference := mkReference {
  RefName : string;
  RefShort : string;
  RefHash : Hash
}.

(** The working copy is at a commit after a hard reset that succeeded;
    nothing is known about it when it carries local changes or after a hard
    reset that failed. *)
Inductive WorkingCopy :=
| CleanAt (commit : Hash)
| Unknown.

Inductive error :=
| ErrConfig
| ErrOpen
| ErrHead
| ErrResolveRevision
| ErrWorktree
| ErrStatus
| ErrDirty
| ErrGit
| ErrReset (commit : Hash) (ref : string)
| ErrRunBenchmark
| ErrNoVersionTags
| ErrLatestRelease (cause : error)
| ErrRegression (regression regressionWithLatestVersion : bool).

(** What [run] acts on: the working copy, the hard resets performed so far
    (oldest first, each with its outcome), the number of benchmark commands
    started, the standard output and the log. *)
Record World := mkWorld {
  worktree : WorkingCopy;
  resets : list (Hash * bool);
  commands : nat;
  stdout : Writer;
  logs : list string
}.

(** The flags, and the answers of the collaborators: the configuration
    file, the git repository and the benchmark command.  [None] and [false]
    stand for a non-nil error.  [runBenchmark] is the function of that name
    taken whole (argument list, command run, output parsing); its answer
    may depend on how many commands ran before and on the working copy.
    [sortSliceOrder] stands for the algorithm behind [sort.Slice], which the
    toolchain chooses and which decides the order of elements that compare
    equal (see [sortSlice] below); the empty list is the plain insertion
    sort. *)
Record Env := mkEnv {
  flagConfiguration : BenchmarkConfiguration;
  baseRef : string;
  onlyRegression : bool;
  compareLatestVersion : bool;
  configFile : option BenchmarkList;
  gitPlainOpen : bool;
  gitHead : option Hash;
  gitResolveRevision : string -> option Hash;
  gitWorktree : bool;
  gitStatusIsClean : option bool;
  gitResetOk : nat -> Hash -> bool;
  gitTags : option (list Reference * bool);
  sortSliceOrder : list nat;
  runBenchmark : nat -> WorkingCopy -> string -> Benchmark -> option parse.Set_
}.

(** Computations that change the world and may stop with an error. *)
Definition M (A : Type) : Type := World -> (error + A) * World.

Definition ret {A} (a : A) : M A := fun w => (inr a, w).
Definition fail {A} (e : error) : M A := fun w => (inl e, w).
Definition bind {A B} (m : M A) (k : A -> M B) : M B :=
  fun w => match m w with
           | (inl e, w') => (inl e, w')
           | (inr a, w') => k a w'
           end.
Definition wrapErr {A} (wrap : error -> error) (m : M A) : M A :=
  fun w => match m w with
           | (inl e, w') => (inl (wrap e), w')
           | (inr a, w') => (inr a, w')
           end.
(** [defer cleanup] followed by [body]: the cleanup runs when [body]
    returns, with or without an error. *)
Definition defer {A} (cleanup : World -> World) (body : M A) : M A :=
  fun w => let '(r, w') := body w in (r, cleanup w').
Definition ofOption {A} (e : error) (o : option A) : M A :=
  match o with Some a => ret a | None => fail e end.
Definition modify (f : World -> World) : M unit := fun w => (inr tt, f w).

Notation "x <- m ;; k" := (bind m (fun x => k))
  (at level 63, m at next level, right associativity).

Definition klog (msg : string) (w : World) : World :=
  mkWorld (worktree w) (resets w) (commands w) (stdout w) (logs w ++ [msg]).

Definition write (f : Writer -> Writer) (w : World) : World :=
  mkWorld (worktree w) (resets w) (commands w) (f (stdout w)) (logs w).

(** [w.Reset(&git.ResetOptions{Commit: commit, Mode: git.HardReset})]. *)
Definition Reset (env : Env) (commit : Hash) : M unit :=
  fun w =>
    let ok := gitResetOk env (length (resets w)) commit in
    (if ok then inr tt else inl ErrGit,
     mkWorld (if ok then CleanAt commit else Unknown)
       (resets w ++ [(commit, ok)]) (commands w) (stdout w) (logs w)).

(** ** Running the benchmarks at one revision *)

Definition runBenchmarksStep (env : Env) (command tagVersion : string)
    (st : BenchSet * World) (benchmark : Benchmark) : BenchSet * World :=
  let '(set, w) := st in
  if negb (String.eqb tagVersion "")
     && negb (versionRequired (VersionRequirement benchmark) tagVersion)
  then (set, klog "Version required, skip test" w)
  else
    let answer := runBenchmark env (commands w) (worktree w) command benchmark in
    let w := mkWorld (worktree w) (resets w) (S (commands w)) (stdout w) (logs w) in
    match answer with
    | None => (set, klog "Parse result error" w)
    | Some parseSet =>
        if negb (Nat.eqb (size parseSet) 1)
        then (set, klog "expected exactly one benchmark result" w)
        else match set !! UniqueName benchmark with
             | Some _ => (set, klog "more than one benchmark with unique name" w)
             | None =>
                 match map_to_list parseSet with
                 | [(_, [s0])] => (<[UniqueName benchmark := s0]> set, w)
                 | [(_, _)] => (set, klog "expected exactly one benchmark result" w)
                 | _ => (set, w)
                 end
             end
    end.

(** [runBenchmarks] always returns a nil error. *)
Definition runBenchmarks (env : Env) (benchmarks : BenchmarkList) (tagVersion : string)
    : M BenchSet :=
  fun w =>
    let '(set, w') :=
      fold_left (runBenchmarksStep env (Command benchmarks) tagVersion)
        (Benchmarks benchmarks) (∅, w) in
    (inr set, w').

(** ** The latest release *)

(** [sort.Slice] sorts in place and is not stable: which of several
    elements that compare equal comes first depends on the algorithm, and
    the algorithm on the toolchain and on the length of the slice (an
    insertion sort on a short slice, a quicksort variant on a longer one).
    Its result is a rearrangement of the slice in which no element is
    [less] than an earlier one.  Every such result, and nothing else, is the
    stable insertion sort of some rearrangement of the slice (lemmas
    [sortSlice_sorted], [sortSlice_Permutation] and [sortSlice_any_result]),
    so [sortSlice] is that: the rearrangement given by [order], then the
    insertion sort.

    The insertion sort: each element moves left while it is [less] than
    its left neighbour.  [insertLess] works on the reversed sorted
    prefix. *)
Fixpoint insertLess {A} (less : A -> A -> bool) (x : A) (revPrefix : list A) : list A :=
  match revPrefix with
  | [] => [x]
  | y :: r => if less x y then y :: insertLess less x r else x :: revPrefix
  end.

Definition insertionSort {A} (less : A -> A -> bool) (l : list A) : list A :=
  rev (fold_left (fun revPrefix x => insertLess less x revPrefix) l []).

(** [x] put at index [n] of [l], at its end when [l] is shorter. *)
Fixpoint insertAt {A} (n : nat) (x : A) (l : list A) : list A :=
  match n, l with
  | O, _ => x :: l
  | S _, [] => [x]
  | S n', y :: l' => y :: insertAt n' x l'
  end.

(** The rearrangement of [l] that [order] describes: the i-th number is
    the index at which the i-th element goes among the elements after it.
    Where [order] says nothing the elements stay as they are. *)
Fixpoint rearrange {A} (order : list nat) (l : list A) {struct l} : list A :=
  match l with
  | [] => []
  | x :: l' =>
      match order with
      | [] => l
      | n :: order' => insertAt n x (rearrange order' l')
      end
  end.

Definition sortSlice {A} (order : list nat) (less : A -> A -> bool) (l : list A)
    : list A :=
  insertionSort less (rearrange order l).

(** The callback of [tagRefs.ForEach]: the tag is appended whether or not
    its name parses. *)
Definition collectTag (st : list (Reference * semver.Version) * World) (tagRef : Reference)
    : list (Reference * semver.Version) * World :=
  let '(tags, w) := st in
  let tagName := RefShort tagRef in
  let '(v, ok) := semver.Make (trimTagVersion tagName) in
  let w := if ok then w else klog "Tag name is a not a valid semver, skipping" w in
  (tags ++ [(tagRef, v)], w).

Definition getLatestRelease (env : Env) : M Reference :=
  fun w =>
    match gitTags env with
    | None => (inl ErrGit, w)
    | Some (tagRefs, iterationOk) =>
        let '(tags, w) := fold_left collectTag tagRefs ([], w) in
        let tags :=
          sortSlice (sortSliceOrder env) (fun t1 t2 => semver.GT (snd t1) (snd t2))
            tags in
        match tags with
        | [] => (inl ErrNoVersionTags, w)
        | t :: _ =>
            (if iterationOk then inr (fst t) else inl ErrGit,
             klog "Latest tag version" w)
        end
    end.

(** ** The comparison loop of [run] *)

(** [fmt.Errorf("missing benchmark '%s'", benchName)], the error that the
    loop logs. *)
Definition missingBenchmark (benchName : string) : string :=
  String.append "missing benchmark '" (String.append benchName "'").

(** The two closures of the loop body.  Both test the [prevBench] of the
    enclosing turn, which they capture, and divide by the [baseBench]
    they are given. *)
Definition getRationsPerOP (prevBench headBench baseBench : parse.Benchmark) : float64 :=
  if negb (isZero64 (parse.NsPerOp prevBench))
  then ((parse.NsPerOp headBench - parse.NsPerOp baseBench) / parse.NsPerOp baseBench)%float
  else PrimFloat.zero.

Definition getRatioAllocedBytesPerOp (prevBench headBench baseBench : parse.Benchmark)
    : float64 :=
  if negb (N.eqb (parse.AllocedBytesPerOp prevBench) 0)
  then ((float64_of_uint64 (parse.AllocedBytesPerOp headBench)
         - float64_of_uint64 (parse.AllocedBytesPerOp baseBench))
        / float64_of_uint64 (parse.AllocedBytesPerOp baseBench))%float
  else PrimFloat.zero.

Record Comparison := mkComparison {
  rows : list (list Cell);
  ratios : list result;
  ratiosWithRelease : list result;
  errorLog : list string
}.

Definition compareStep (baseRef tagName : string) (headSet prevSet : BenchSet)
    (latestReleaseSet : option BenchSet) (acc : Comparison) (benchmark : Benchmark)
    : Comparison :=
  let benchName := UniqueName benchmark in
  match headSet !! benchName with
  | None =>
      mkComparison (rows acc) (ratios acc) (ratiosWithRelease acc)
        (errorLog acc ++ [missingBenchmark benchName])
  | Some headBench =>
      let rows1 := rows acc ++ [generateRow "HEAD" headBench] in
      match prevSet !! benchName with
      | None =>
          mkComparison (rows1 ++ [[CText benchName; CText baseRef; CText "-"; CText "-"]])
            (ratios acc) (ratiosWithRelease acc) (errorLog acc)
      | Some prevBench =>
          let rows2 := rows1 ++ [generateRow baseRef prevBench] in
          let ratios2 :=
            ratios acc ++ [mkResult benchmark
                             (getRationsPerOP prevBench headBench prevBench)
                             (getRatioAllocedBytesPerOp prevBench headBench prevBench)] in
          match latestReleaseSet with
          | None => mkComparison rows2 ratios2 (ratiosWithRelease acc) (errorLog acc)
          | Some releaseSet =>
              match releaseSet !! benchName with
              | Some latestReleaseBench =>
                  mkComparison (rows2 ++ [generateRow tagName latestReleaseBench]) ratios2
                    (ratiosWithRelease acc
                     ++ [mkResult benchmark
                           (getRationsPerOP prevBench headBench latestReleaseBench)
                           (getRatioAllocedBytesPerOp prevBench headBench
                              latestReleaseBench)])
                    (errorLog acc)
              | None => mkComparison rows2 ratios2 (ratiosWithRelease acc) (errorLog acc)
              end
          end
      end
  end.

Definition compareLoop (baseRef tagName : string) (headSet prevSet : BenchSet)
    (latestReleaseSet : option BenchSet) (benchmarks : list Benchmark) : Comparison :=
  fold_left (compareStep baseRef tagName headSet prevSet latestReleaseSet) benchmarks
    (mkComparison [] [] [] []).

(** ** The orchestration *)

Definition resetAndRunBenchmark (env : Env) (benchmarks : BenchmarkList)
    (commit : Hash) (ref : string) (isTag : bool) : M BenchSet :=
  _ <- wrapErr (fun _ => ErrReset commit ref) (Reset env commit) ;;
  _ <- modify (klog "Run Benchmark") ;;
  let tagVersion := if isTag then ref else "" in
  wrapErr (fun _ => ErrRunBenchmark) (runBenchmarks env benchmarks tagVersion).

(** [showRatio(os.Stdout, ...)] and [showResult(os.Stdout, ...)]. *)
Definition printRatio (results : list result) (onlyRegression : bool)
    (compareWith : string) : M bool :=
  fun w =>
    let '(out, regression) := showRatio (stdout w) results onlyRegression compareWith in
    (inr regression, write (fun _ => out) w).

Definition printResult (rows : list (list Cell)) : M unit :=
  modify (write (fun out => showResult out rows)).

Definition klogAll (msgs : list string) : M unit :=
  modify (fun w => fold_left (fun w msg => klog msg w) msgs w).

(** What follows the [defer] statement of [run]. *)
Definition runDeferred (env : Env) (benchmarks : BenchmarkList) (head prev : Hash)
    : M unit :=
  let benchmarks := updateBenchmarks (flagConfiguration env) benchmarks in
  prevSet <- resetAndRunBenchmark env benchmarks prev (baseRef env) false ;;
  release <-
    (if compareLatestVersion env then
       prevVersionTag <- wrapErr ErrLatestRelease (getLatestRelease env) ;;
       releaseSet <- resetAndRunBenchmark env benchmarks (RefHash prevVersionTag)
                       (RefShort prevVersionTag) true ;;
       ret (Some releaseSet, RefName prevVersionTag)
     else ret (None, "")) ;;
  let latestReleaseSet : option BenchSet := fst release in
  let tagName : string := snd release in
  headSet <- resetAndRunBenchmark env benchmarks head "HEAD" false ;;
  let cmp := compareLoop (baseRef env) tagName headSet prevSet latestReleaseSet
               (Benchmarks benchmarks) in
  _ <- klogAll (errorLog cmp) ;;
  _ <- (if onlyRegression env then ret tt else printResult (rows cmp)) ;;
  regression <- printRatio (ratios cmp) (onlyRegression env) (baseRef env) ;;
  regressionWithLatestVersion <-
    (match latestReleaseSet with
     | None => ret false
     | Some _ => printRatio (ratiosWithRelease cmp) (onlyRegression env) tagName
     end) ;;
  if regression || regressionWithLatestVersion
  then fail (ErrRegression regression regressionWithLatestVersion)
  else ret tt.

Definition run (env : Env) : M unit :=
  benchmarks <- ofOption ErrConfig (configFile env) ;;
  _ <- (if gitPlainOpen env then ret tt else fail ErrOpen) ;;
  head <- ofOption ErrHead (gitHead env) ;;
  prev <- ofOption ErrResolveRevision (gitResolveRevision env (baseRef env)) ;;
  _ <- (if gitWorktree env then ret tt else fail ErrWorktree) ;;
  isClean <- ofOption ErrStatus (gitStatusIsClean env) ;;
  if negb isClean then fail ErrDirty
  else defer (fun w => snd (Reset env head w)) (runDeferred env benchmarks head prev).

(** ** The version matcher in the words of the specification

    Section 4.1 of the specification: the operator is a prefix of the trimmed
    constraint, what remains after removing that prefix is the version
    literal, a leading version-prefix character is removed from the literal
    and from the tag, and a string that does not parse counts as the zero
    version. *)

Definition specStripVersionPrefix (s : string) : string :=
  GoStrings.TrimPrefix s tagVersionPrefix.

Definition specVersionOf (s : string) : semver.Version :=
  fst (semver.Make (specStripVersionPrefix s)).

Definition specMatches (constraint tag : string) : bool :=
  let c := GoStrings.TrimSpace constraint in
  let t := GoStrings.TrimSpace tag in
  if String.eqb c "" then true
  else if GoStrings.HasPrefix c ">=" then
    semver.GTE (specVersionOf t) (specVersionOf (GoStrings.TrimPrefix c ">="))
  else if GoStrings.HasPrefix c ">" then
    semver.GT (specVersionOf t) (specVersionOf (GoStrings.TrimPrefix c ">"))
  else semver.Equals (specVersionOf t) (specVersionOf c).

(** The version that the program reads in a tag or in a constraint
    literal: every leading [v] removed, the zero version when the rest does
    not parse. *)
Definition versionOf (s : string) : semver.Version :=
  fst (semver.Make (trimTagVersion s)).

(** ** Predicates used in the statements *)

(** A computation that only adds to the list of hard resets. *)
Definition Grows {A} (m : M A) : Prop :=
  forall w, exists performed, resets (snd (m w)) = resets w ++ performed.

(** Two states of the comparison loop with the same tables (their logs may
    differ). *)
Definition sameTables (a b : Comparison) : Prop :=
  rows a = rows b /\ ratios a = ratios b /\ ratiosWithRelease a = ratiosWithRelease b.

(** ** Concrete inputs *)

Module Examples.

Definition emptyConfiguration : BenchmarkConfiguration :=
  mkConfiguration "" PrimFloat.zero "" "" "" None.

(** The flag defaults set by [init]. *)
Definition defaultFlags : BenchmarkConfiguration :=
  mkConfiguration "1s" 0.2%float "ns/op,B/op" "4" "10m" (Some true).

Definition benchmarkA : Benchmark :=
  mkBenchmark "BenchmarkA" "pkg/a" "" "" emptyConfiguration.

(** The same entry after the defaulting pass. *)
Definition benchmarkA1 : Benchmark :=
  mkBenchmark "BenchmarkA" "pkg/a" "BenchmarkA" "" defaultFlags.

Definition benchmarkFile : BenchmarkList :=
  mkBenchmarkList emptyConfiguration "go" [benchmarkA].

Definition headA : parse.Benchmark := parse.mkBenchmark "BenchmarkA" 150%float 20.
Definition baseA : parse.Benchmark := parse.mkBenchmark "BenchmarkA" 100%float 10.
Definition releaseA : parse.Benchmark := parse.mkBenchmark "BenchmarkA" 120%float 0.

Definition releaseTag : Reference := mkReference "refs/tags/v1.0.0" "v1.0.0" "c2".
Definition nightlyTag : Reference := mkReference "refs/tags/nightly" "nightly" "c3".
Definition candidateTag : Reference :=
  mkReference "refs/tags/v0.0.0-rc.1" "v0.0.0-rc.1" "c4".

(** HEAD is commit [c9] and the base revision is [c8]; the benchmark
    command measures [headA] at HEAD, [baseA] at the base and [releaseA]
    at any other commit. *)
Definition measure (n : nat) (tree : WorkingCopy) (command : string) (b : Benchmark)
    : option parse.Set_ :=
  match tree with
  | CleanAt commit =>
      if String.eqb commit "c9" then Some {[ Name b := [headA] ]}
      else if String.eqb commit "c8" then Some {[ Name b := [baseA] ]}
      else Some {[ Name b := [releaseA] ]}
  | Unknown => None
  end.

(** A command that measures [baseA] at every revision. *)
Definition steady (n : nat) (tree : WorkingCopy) (command : string) (b : Benchmark)
    : option parse.Set_ :=
  Some {[ Name b := [baseA] ]}.

Definition env (isClean : bool) (resetOk : nat -> Hash -> bool)
    (tags : list Reference)
    (command : nat -> WorkingCopy -> string -> Benchmark -> option parse.Set_) : Env :=
  mkEnv defaultFlags "HEAD~1" false true (Some benchmarkFile) true (Some "c9")
    (fun _ => Some "c8") true (Some isClean) resetOk (Some (tags, true)) [] command.

(** A second tag of version 1.0.0, written without the version prefix. *)
Definition plainReleaseTag : Reference := mkReference "refs/tags/1.0.0" "1.0.0" "c5".

(** The environment of a clean working copy whose resets succeed, in which
    [sort.Slice] leaves the elements that compare equal as [order] says. *)
Definition envSorting (order : list nat) (tags : list Reference) : Env :=
  mkEnv defaultFlags "HEAD~1" false true (Some benchmarkFile) true (Some "c9")
    (fun _ => Some "c8") true (Some true) (fun _ _ => true) (Some (tags, true))
    order measure.

Definition resetsSucceed (n : nat) (commit : Hash) : bool := true.
Definition secondResetFails (n : nat) (commit : Hash) : bool := negb (Nat.eqb n 1).

Definition world0 : World := mkWorld (CleanAt "c9") [] 0 [] [].

(** A result whose compare string names neither metric. *)
Definition unselected : result :=
  mkResult
    (mkBenchmark "BenchmarkA" "pkg/a" "BenchmarkA" ""
       (mkConfiguration "1s" 0.2%float "allocs/op" "4" "10m" (Some true)))
    10%float 10%float.

End Examples.

(** ** Three-way comparisons

    A comparison function in the style of [Version.Compare]: it answers
    -1, 0 or 1, swapping the arguments negates the answer, and "at most" is
    transitive. *)
Definition orders {A} (cmp : A -> A -> Z) : Prop :=
  (forall a b, cmp a b = -1 \/ cmp a b = 0 \/ cmp a b = 1)
  /\ (forall a b, cmp b a = - cmp a b)
  /\ (forall a b c, cmp a b <= 0 -> cmp b c <= 0 -> cmp a c <= 0).

(** Compare with [first]; on a tie compare with [second]. *)
Definition lexCompare {A} (first second : A -> A -> Z) (a b : A) : Z :=
  if first a b =? 0 then second a b else first a b.

(** The comparison of the prerelease fields inside [Version.Compare]: a
    version without prerelease fields ranks above one with them. *)
Definition comparePreFields (a b : list semver.PRVersion) : Z :=
  match a, b with
  | [], [] => 0
  | [], _ :: _ => 1
  | _ :: _, [] => -1
  | _, _ => semver.comparePre a b
  end.

(** [n] copies of the version prefix. *)
Fixpoint versionPrefixes (n : nat) : string :=
  match n with
  | O => EmptyString
  | S n' => String.append tagVersionPrefix (versionPrefixes n')
  end.

(** The comparison that [getLatestRelease] hands to [sort.Slice]. *)
Definition tagLess (t1 t2 : Reference * semver.Version) : bool :=
  semver.GT (snd t1) (snd t2).

(** [a] ranks at most as high as [b]. *)
Definition tagAtMost (a b : Reference * semver.Version) : Prop :=
  semver.Compare (snd a) (snd b) <= 0.

(** ** The command line of one benchmark

    The argument list that [runBenchmark] hands to [exec.Command].  Building
    it reads [*benchmark.Benchmem]; [None] stands for the nil-pointer panic
    of that read. *)
Definition runBenchmarkArgs (benchmark : Benchmark) : option (list string) :=
  match Benchmem (Configuration benchmark) with
  | None => None
  | Some benchmem =>
      Some (["test"; "-run"; "'^$'";
             "-bench"; Name benchmark;
             "-benchtime"; Benchtime (Configuration benchmark);
             "-timeout"; Timeout (Configuration benchmark);
             "-cpu"; Cpu (Configuration benchmark);
             "-v"]
            ++ (if benchmem then ["-benchmem"] else [])
            ++ [Package benchmark])
  end.

(** Every field of a configuration bundle is set. *)
Definition allSet (c : BenchmarkConfiguration) : Prop :=
  Benchtime c <> "" /\ isZero64 (Threshold c) = false /\ Compare c <> ""
  /\ Cpu c <> "" /\ Timeout c <> "" /\ Benchmem c <> None.

(** The gate at the head of the loop of [runBenchmarks]: a benchmark is run
    unless a tag version is given and its requirement rejects it. *)
Definition admitted (tagVersion : string) (benchmark : Benchmark) : bool :=
  String.eqb tagVersion "" || versionRequired (VersionRequirement benchmark) tagVersion.

(** Whether a result set holds a measurement for a benchmark. *)
Definition measured (set : BenchSet) (benchmark : Benchmark) : bool :=
  match set !! UniqueName benchmark with
  | Some _ => true
  | None => false
  end.

(** The tables and the log of two stretches of the comparison loop, one
    after the other. *)
Definition appendComparison (a b : Comparison) : Comparison :=
  mkComparison (rows a ++ rows b) (ratios a ++ ratios b)
    (ratiosWithRelease a ++ ratiosWithRelease b) (errorLog a ++ errorLog b).

(** Whether [showRatio] puts a result in its table. *)
Definition listed (onlyRegression : bool) (r : result) : bool :=
  regressed r || negb onlyRegression.

(** The table line that [showRatio] builds for a result: the name, then
    each ratio with its colour, or a dash for a metric that is not
    selected. *)
Definition ratioLine (r : result) : list (Cell * Color) :=
  let score := whichScoreToCompare (Compare (Configuration (ResultBenchmark r))) in
  [(CText (Name (ResultBenchmark r)), NoColor);
   (if nsPerOp score
    then (generateRatioItem (RatioNsPerOp r), generateColor (RatioNsPerOp r))
    else (CText "-", NoColor));
   (if allocedBytesPerOp score
    then (generateRatioItem (RatioAllocedBytesPerOp r),
          generateColor (RatioAllocedBytesPerOp r))
    else (CText "-", NoColor))].

(** ** The ways through [run] after its [defer] statement

    [releaseStep env rel]: the checkout of the latest release, [rel], that
    lies between the checkout of the base and the one of HEAD: none when no
    release is compared, otherwise the one successful reset to the tag that
    [getLatestRelease] returns (in whatever world it is called: the world
    only receives its log lines). *)
Definition releaseStep (env : Env) (rel : list (Hash * bool)) : Prop :=
  (compareLatestVersion env = false /\ rel = [])
  \/ (compareLatestVersion env = true
      /\ exists t, (forall w, fst (getLatestRelease env w) = inr t)
                   /\ rel = [(RefHash t, true)]).

(** The five ways: the reset to the base fails; the latest release cannot
    be resolved; the reset to the release fails; the reset to HEAD fails;
    the three sets are compared. *)
Inductive DeferredOutcome (env : Env) (head prev : Hash) (w : World)
    : (error + unit) * World -> Prop :=
| BaseResetFailed r :
    fst r = inl (ErrReset prev (baseRef env)) ->
    resets (snd r) = resets w ++ [(prev, false)] ->
    stdout (snd r) = stdout w -> commands (snd r) = commands w ->
    DeferredOutcome env head prev w r
| ReleaseUnresolved r e :
    compareLatestVersion env = true ->
    e = ErrGit \/ e = ErrNoVersionTags ->
    fst r = inl (ErrLatestRelease e) ->
    resets (snd r) = resets w ++ [(prev, true)] ->
    stdout (snd r) = stdout w ->
    DeferredOutcome env head prev w r
| ReleaseResetFailed r t :
    compareLatestVersion env = true ->
    (forall w0, fst (getLatestRelease env w0) = inr t) ->
    fst r = inl (ErrReset (RefHash t) (RefShort t)) ->
    resets (snd r) = resets w ++ [(prev, true); (RefHash t, false)] ->
    stdout (snd r) = stdout w ->
    DeferredOutcome env head prev w r
| HeadResetFailed r rel :
    releaseStep env rel ->
    fst r = inl (ErrReset head "HEAD") ->
    resets (snd r) = resets w ++ (prev, true) :: rel ++ [(head, false)] ->
    stdout (snd r) = stdout w ->
    DeferredOutcome env head prev w r
| Compared r rel (regression regressionWithLatestVersion : bool) :
    releaseStep env rel ->
    fst r = (if regression || regressionWithLatestVersion
             then inl (ErrRegression regression regressionWithLatestVersion)
             else inr tt) ->
    (compareLatestVersion env = false -> regressionWithLatestVersion = false) ->
    resets (snd r) = resets w ++ (prev, true) :: rel ++ [(head, true)] ->
    (onlyRegression env = true -> regression || regressionWithLatestVersion = false ->
     stdout (snd r) = stdout w) ->
    DeferredOutcome env head prev w r.

(** The steps of [run] before its first hard reset all succeed. *)
Definition preconditionsHold (env : Env) : Prop :=
  configFile env <> None /\ gitPlainOpen env = true /\ gitHead env <> None
  /\ gitResolveRevision env (baseRef env) <> None /\ gitWorktree env = true
  /\ gitStatusIsClean env = Some true.

(** The errors of the steps of [run] before its first hard reset. *)
Definition preconditionError (e : error) : Prop :=
  e = ErrConfig \/ e = ErrOpen \/ e = ErrHead \/ e = ErrResolveRevision
  \/ e = ErrWorktree \/ e = ErrStatus \/ e = ErrDirty.

(** An ASCII byte that is not white space. *)
Definition plainByte (a : ascii) : Prop :=
  (GoStrings.byte_of a < 128)%N /\ GoStrings.isAsciiSpace a = false.

(** ** The outcome of one benchmark command

    [strings.HasSuffix]. *)
Definition HasSuffix (s suffix : string) : bool :=
  let n := String.length s in
  let m := String.length suffix in
  (m <=? n)%nat && String.eqb (String.substring (n - m) m s) suffix.

(** What [cmd.Output()] gives back: whether the error is non-nil, the
    standard output and what the command wrote to its standard error. *)
Record CommandRun := mkCommandRun {
  cmdFailed : bool;
  cmdOut : string;
  cmdStderr : string
}.

(** The part of [runBenchmark] after the command has run; [ParseSet] is
    [parse.ParseSet] and [None] a non-nil error. *)
Definition runBenchmarkOutcome (ParseSet : string -> option parse.Set_)
    (run : CommandRun) : option parse.Set_ :=
  if cmdFailed run then
    if HasSuffix (GoStrings.TrimSpace (cmdStderr run)) "no packages to test"
    then Some ∅
    else None
  else ParseSet (cmdOut run).

(** A string of ASCII white space bytes. *)
Definition asciiSpaces (s : string) : Prop :=
  Forall (fun a => GoStrings.isAsciiSpace a = true) (list_ascii_of_string s).

(** * Properties *)

(** ** White space trimming *)

Section TrimFacts.

Import GoStrings.

Variable width : list ascii -> nat.
Hypothesis width_le : forall s, (width s <= length s)%nat.

Lemma dropWhileWidth_done (fuel : nat) (s : list ascii) :
  (length s <= fuel)%nat -> width (dropWhileWidth width fuel s) = O.
Proof.
  revert s. induction fuel as [|fuel IH]; intros s Hlen; simpl.
  - pose proof (width_le s). lia.
  - destruct (width s) as [|k] eqn:Hw; [exact Hw|].
    apply IH. rewrite length_drop. pose proof (width_le s). lia.
Qed.

Lemma dropWhileWidth_fixed (fuel : nat) (s : list ascii) :
  width s = O -> dropWhileWidth width fuel s = s.
Proof. intros Hw. destruct fuel; simpl; [reflexivity|]. now rewrite Hw. Qed.

Lemma dropWhileWidth_suffix (fuel : nat) (s : list ascii) :
  exists p, s = p ++ dropWhileWidth width fuel s.
Proof.
  revert s. induction fuel as [|fuel IH]; intros s; simpl.
  - now exists [].
  - destruct (width s) as [|k]; [now exists []|].
    destruct (IH (drop (S k) s)) as [p Hp].
    exists (take (S k) s ++ p). rewrite <- app_assoc, <- Hp.
    symmetry. apply take_drop.
Qed.

End TrimFacts.

Lemma spaceWidth_le (s : list ascii) : (GoStrings.spaceWidth s <= length s)%nat.
Proof.
  destruct s as [|a [|b [|c r]]]; simpl;
    repeat match goal with |- context [if ?b then _ else _] => destruct b end; lia.
Qed.

Lemma spaceWidthRev_le (s : list ascii) : (GoStrings.spaceWidthRev s <= length s)%nat.
Proof.
  destruct s as [|a [|b [|c r]]]; simpl;
    repeat match goal with |- context [if ?b then _ else _] => destruct b end; lia.
Qed.

(** A white space rune at the start of a string is still there when the
    string is extended. *)
Lemma spaceWidth_app (s t : list ascii) :
  GoStrings.spaceWidth (s ++ t) = O -> GoStrings.spaceWidth s = O.
Proof.
  destruct s as [|a [|b [|c r]]]; simpl; try reflexivity;
    repeat match goal with |- context [if ?b then _ else _] => destruct b end;
    try reflexivity; try discriminate.
Qed.

Lemma trimLeftSpace_done (s : list ascii) :
  GoStrings.spaceWidth (GoStrings.trimLeftSpace s) = O.
Proof. apply dropWhileWidth_done; [apply spaceWidth_le|reflexivity]. Qed.

Lemma trimRightSpace_done (s : list ascii) :
  GoStrings.spaceWidthRev (rev (GoStrings.trimRightSpace s)) = O.
Proof.
  unfold GoStrings.trimRightSpace. rewrite rev_involutive.
  apply dropWhileWidth_done; [apply spaceWidthRev_le|].
  now rewrite length_rev.
Qed.

Lemma trimRightSpace_prefix (s : list ascii) :
  exists q, s = GoStrings.trimRightSpace s ++ q.
Proof.
  unfold GoStrings.trimRightSpace.
  destruct (dropWhileWidth_suffix GoStrings.spaceWidthRev (length s) (rev s)) as [p Hp].
  exists (rev p). rewrite <- rev_app_distr, <- Hp. now rewrite rev_involutive.
Qed.

Lemma trimRightSpace_keeps_start (s : list ascii) :
  GoStrings.spaceWidth s = O -> GoStrings.spaceWidth (GoStrings.trimRightSpace s) = O.
Proof.
  intros Hs. destruct (trimRightSpace_prefix s) as [q Hq].
  apply spaceWidth_app with (t := q). now rewrite <- Hq.
Qed.

Lemma trimSpace_bytes_idempotent (s : list ascii) :
  let t := GoStrings.trimRightSpace (GoStrings.trimLeftSpace s) in
  GoStrings.trimRightSpace (GoStrings.trimLeftSpace t) = t.
Proof.
  intros t.
  assert (Hl : GoStrings.trimLeftSpace t = t).
  { apply dropWhileWidth_fixed, trimRightSpace_keeps_start, trimLeftSpace_done. }
  rewrite Hl. unfold GoStrings.trimRightSpace at 1.
  rewrite dropWhileWidth_fixed by apply trimRightSpace_done.
  apply rev_involutive.
Qed.

Lemma TrimSpace_idempotent (s : string) :
  GoStrings.TrimSpace (GoStrings.TrimSpace s) = GoStrings.TrimSpace s.
Proof.
  unfold GoStrings.TrimSpace. rewrite list_ascii_of_string_of_list_ascii.
  now rewrite trimSpace_bytes_idempotent.
Qed.

Lemma TrimSpace_empty : GoStrings.TrimSpace "" = "".
Proof. reflexivity. Qed.

(** ** Semantic-version ordering *)

Lemma cmpN_range (a b : N) : semver.cmpN a b = -1 \/ semver.cmpN a b = 0 \/ semver.cmpN a b = 1.
Proof. unfold semver.cmpN. destruct (a =? b)%N, (b <? a)%N; auto. Qed.

Lemma PRCompare_range (v o : semver.PRVersion) :
  semver.PRCompare v o = -1 \/ semver.PRCompare v o = 0 \/ semver.PRCompare v o = 1.
Proof.
  unfold semver.PRCompare.
  destruct (semver.IsNum v), (semver.IsNum o); simpl; auto using cmpN_range.
  destruct (String.compare _ _); auto.
Qed.

Lemma comparePre_range (a b : list semver.PRVersion) :
  semver.comparePre a b = -1 \/ semver.comparePre a b = 0 \/ semver.comparePre a b = 1.
Proof.
  revert b. induction a as [|x a IH]; intros [|y b]; simpl; auto.
  destruct (semver.PRCompare x y =? 0); [apply IH|].
  destruct (semver.PRCompare x y =? 1); auto.
Qed.

Lemma Compare_range (v o : semver.Version) :
  semver.Compare v o = -1 \/ semver.Compare v o = 0 \/ semver.Compare v o = 1.
Proof.
  unfold semver.Compare.
  repeat match goal with
         | |- context [if ?b then _ else _] => destruct b
         end; auto.
  all: destruct (semver.Pre v) as [|x a], (semver.Pre o) as [|y b]; auto.
  all: apply comparePre_range.
Qed.

Lemma GT_iff (v o : semver.Version) : semver.GT v o = true <-> 0 < semver.Compare v o.
Proof.
  unfold semver.GT. rewrite Z.eqb_eq.
  destruct (Compare_range v o) as [H|[H|H]]; rewrite H; lia.
Qed.

Lemma GTE_iff (v o : semver.Version) : semver.GTE v o = true <-> 0 <= semver.Compare v o.
Proof. unfold semver.GTE. apply Z.leb_le. Qed.

Lemma Equals_iff (v o : semver.Version) : semver.Equals v o = true <-> semver.Compare v o = 0.
Proof. unfold semver.Equals. apply Z.eqb_eq. Qed.

Lemma cmpN_antisym (a b : N) : semver.cmpN b a = - semver.cmpN a b.
Proof.
  unfold semver.cmpN.
  destruct (N.eqb_spec a b) as [->|Hne].
  - now rewrite N.eqb_refl.
  - destruct (N.eqb_spec b a) as [Heq|_]; [congruence|].
    destruct (N.ltb_spec a b), (N.ltb_spec b a); try reflexivity; lia.
Qed.

Lemma PRCompare_antisym (v o : semver.PRVersion) :
  semver.PRCompare o v = - semver.PRCompare v o.
Proof.
  unfold semver.PRCompare.
  destruct (semver.IsNum v), (semver.IsNum o); simpl; try reflexivity.
  - apply cmpN_antisym.
  - rewrite (String.compare_antisym (semver.VersionStr v)).
    destruct (String.compare _ _); reflexivity.
Qed.

Lemma comparePre_antisym (a b : list semver.PRVersion) :
  semver.comparePre b a = - semver.comparePre a b.
Proof.
  revert b. induction a as [|x a IH]; intros [|y b]; simpl; try reflexivity.
  rewrite (PRCompare_antisym x y).
  destruct (PRCompare_range x y) as [H|[H|H]]; rewrite H; simpl; auto.
Qed.

(** Swapping the two versions negates the comparison, so [GT] is the
    converse of "less than" and [GTE] of "at most". *)
Lemma Compare_antisym (v o : semver.Version) :
  semver.Compare o v = - semver.Compare v o.
Proof.
  unfold semver.Compare.
  destruct (N.eqb_spec (semver.Major v) (semver.Major o)) as [->|H1].
  2:{ destruct (N.eqb_spec (semver.Major o) (semver.Major v)); [congruence|]. simpl.
      destruct (N.ltb_spec (semver.Major v) (semver.Major o)),
        (N.ltb_spec (semver.Major o) (semver.Major v)); try reflexivity; lia. }
  rewrite N.eqb_refl. simpl.
  destruct (N.eqb_spec (semver.Minor v) (semver.Minor o)) as [->|H2].
  2:{ destruct (N.eqb_spec (semver.Minor o) (semver.Minor v)); [congruence|]. simpl.
      destruct (N.ltb_spec (semver.Minor v) (semver.Minor o)),
        (N.ltb_spec (semver.Minor o) (semver.Minor v)); try reflexivity; lia. }
  rewrite N.eqb_refl. simpl.
  destruct (N.eqb_spec (semver.Patch v) (semver.Patch o)) as [->|H3].
  2:{ destruct (N.eqb_spec (semver.Patch o) (semver.Patch v)); [congruence|]. simpl.
      destruct (N.ltb_spec (semver.Patch v) (semver.Patch o)),
        (N.ltb_spec (semver.Patch o) (semver.Patch v)); try reflexivity; lia. }
  rewrite N.eqb_refl. simpl.
  destruct (semver.Pre v) as [|x a], (semver.Pre o) as [|y b]; try reflexivity.
  apply comparePre_antisym.
Qed.

(** ** Version requirements *)

Lemma versionRequired_trimmed (c t : string) :
  GoStrings.TrimSpace c = c -> c <> "" ->
  versionRequired c t =
    if GoStrings.HasPrefix c ">=" then
      semver.GTE (versionOf t) (versionOf (GoStrings.TrimLeft c ">="))
    else if GoStrings.HasPrefix c ">" then
      semver.GT (versionOf t) (versionOf (GoStrings.TrimLeft c ">"))
    else semver.Equals (versionOf t) (versionOf c).
Proof.
  intros Htrim Hne. unfold versionRequired.
  destruct (String.eqb_spec c "") as [->|_]; [congruence|].
  rewrite Htrim. reflexivity.
Qed.

(** ** The table of the repository's own test *)

Example TestVersionCompare :
  versionRequired ">=1.9.0" "1.10.0" = true
  /\ versionRequired ">=1.3.0" "1.3.0" = true
  /\ versionRequired "  >=1.3.0" "1.2.0" = false
  /\ versionRequired ">v1.3.0   " "v1.4.0" = true
  /\ versionRequired ">1.3.0" " v1.3.0" = false
  /\ versionRequired ">v1.3.0" " 1.2.0" = false
  /\ versionRequired "1.3.0 " "1.2.0" = false
  /\ versionRequired " 1.3.0" "1.3.0" = true
  /\ versionRequired "" "1.3.0" = true.
Proof. vm_compute. repeat split. Qed.

(** C5, as amended: white space around the constraint is insignificant as
    long as something other than white space is left of it, and the empty
    constraint accepts every tag.  The tag is taken as it is. *)
Theorem C5_constraint_whitespace (c t : string) :
  GoStrings.TrimSpace c <> "" ->
  versionRequired c t = versionRequired (GoStrings.TrimSpace c) t
  /\ versionRequired "" t = true.
Proof.
  intros Hne. split; [|reflexivity].
  assert (Hc : c <> "") by (intros ->; apply Hne; reflexivity).
  unfold versionRequired.
  destruct (String.eqb_spec c "") as [->|_]; [congruence|].
  destruct (String.eqb_spec (GoStrings.TrimSpace c) "") as [E|_]; [congruence|].
  now rewrite TrimSpace_idempotent.
Qed.

Lemma C5_constraint_whitespace_witness :
  GoStrings.TrimSpace " 1.3.0" <> ""
  /\ versionRequired " 1.3.0" "1.3.0"
     = versionRequired (GoStrings.TrimSpace " 1.3.0") "1.3.0"
  /\ versionRequired "" "1.3.0" = true.
Proof.
  assert (H : GoStrings.TrimSpace " 1.3.0" <> "") by (vm_compute; discriminate).
  split; [exact H|]. exact (C5_constraint_whitespace " 1.3.0" "1.3.0" H).
Defined.

(** C5 as stated fails: a constraint of two spaces rejects the tag 1.3.0
    although the trimmed (empty) constraint accepts it, and a space before
    the tag changes the answer. *)
Lemma C5_whitespace_counterexample :
  versionRequired "  " "1.3.0" = false
  /\ versionRequired "  " "1.3.0"
     <> versionRequired (GoStrings.TrimSpace "  ") (GoStrings.TrimSpace "1.3.0")
  /\ versionRequired "1.3.0" " 1.3.0"
     <> versionRequired (GoStrings.TrimSpace "1.3.0") (GoStrings.TrimSpace " 1.3.0").
Proof. vm_compute. repeat split; discriminate. Qed.

(** What [versionRequired] computes for a trimmed, non-empty constraint:
    the operator is chosen by prefix, the literal is what [strings.TrimLeft]
    leaves of the constraint, and tag and literal are compared in
    semantic-version order, a string that does not parse counting as
    0.0.0. *)
Lemma versionRequired_cases (c t : string) :
  GoStrings.TrimSpace c = c -> c <> "" ->
  (GoStrings.HasPrefix c ">=" = true ->
   (versionRequired c t = true
    <-> 0 <= semver.Compare (versionOf t) (versionOf (GoStrings.TrimLeft c ">="))))
  /\ (GoStrings.HasPrefix c ">=" = false -> GoStrings.HasPrefix c ">" = true ->
      (versionRequired c t = true
       <-> 0 < semver.Compare (versionOf t) (versionOf (GoStrings.TrimLeft c ">"))))
  /\ (GoStrings.HasPrefix c ">=" = false -> GoStrings.HasPrefix c ">" = false ->
      (versionRequired c t = true
       <-> semver.Compare (versionOf t) (versionOf c) = 0)).
Proof.
  intros Htrim Hne. rewrite (versionRequired_trimmed c t Htrim Hne).
  repeat split; intros; 
    repeat match goal with H : GoStrings.HasPrefix _ _ = _ |- _ => rewrite H in *; clear H end;
    try (apply GTE_iff; assumption); try (apply GT_iff; assumption);
    try (apply Equals_iff; assumption).
Qed.

(** C6, at the failing input: the constraint [>==1.3.0] and the tag 1.2.0.
    The constraint starts with [>=]; the literal left after that prefix,
    [=1.3.0], is no semantic version and counts as 0.0.0, which the tag is
    at least: the requirement is met.  The program tests the prefix with
    [strings.HasPrefix] and then removes it with [strings.TrimLeft], which
    takes [">="] as a set of bytes: both ['='] go, the literal read is
    1.3.0, and the answer is false.  The version prefix is removed by the
    same call: of the tag [vv1.3.0] both ['v'] go, and it meets the
    requirement 1.3.0, where after the removal of one leading ['v'] the tag
    is no version and does not. *)
Theorem C6_operator_removed_as_byte_set :
  GoStrings.TrimSpace ">==1.3.0" = ">==1.3.0"
  /\ GoStrings.HasPrefix ">==1.3.0" ">=" = true
  /\ GoStrings.TrimPrefix ">==1.3.0" ">=" = "=1.3.0"
  /\ semver.Parse "=1.3.0" = None
  /\ semver.GTE (specVersionOf "1.2.0") (specVersionOf "=1.3.0") = true
  /\ specMatches ">==1.3.0" "1.2.0" = true
  /\ GoStrings.TrimLeft ">==1.3.0" ">=" = "1.3.0"
  /\ versionRequired ">==1.3.0" "1.2.0" = false
  /\ specStripVersionPrefix "vv1.3.0" = "v1.3.0"
  /\ specMatches "1.3.0" "vv1.3.0" = false
  /\ trimTagVersion "vv1.3.0" = "1.3.0"
  /\ versionRequired "1.3.0" "vv1.3.0" = true.
Proof. vm_compute. repeat split. Qed.

(** ** Defaulting *)

Lemma pick_twice {A} (unset : A -> bool) (c l f : A) :
  pick unset (pick unset (pick unset (pick unset c l) f) l) f
  = pick unset (pick unset c l) f.
Proof.
  unfold pick.
  destruct (unset c) eqn:Hc; destruct (unset l) eqn:Hl; destruct (unset f) eqn:Hf;
    rewrite ?Hc, ?Hl, ?Hf; reflexivity.
Qed.

Lemma applyDefaults_fields (c d : BenchmarkConfiguration) :
  applyDefaults c d =
    mkConfiguration
      (pick unsetString (Benchtime c) (Benchtime d))
      (pick isZero64 (Threshold c) (Threshold d))
      (pick unsetString (Compare c) (Compare d))
      (pick unsetString (Cpu c) (Cpu d))
      (pick unsetString (Timeout c) (Timeout d))
      (pick unsetPointer (Benchmem c) (Benchmem d)).
Proof.
  destruct c as [bt th cmp cpu tmo bm]. unfold applyDefaults, pick, unsetString. simpl.
  destruct (String.eqb bt ""); simpl;
    destruct (isZero64 th); simpl;
    destruct (String.eqb cmp ""); simpl;
    destruct (String.eqb cpu ""); simpl;
    destruct (String.eqb tmo ""); simpl;
    destruct bm; reflexivity.
Qed.

Lemma applyDefaults_twice (c l f : BenchmarkConfiguration) :
  applyDefaults (applyDefaults (applyDefaults (applyDefaults c l) f) l) f
  = applyDefaults (applyDefaults c l) f.
Proof.
  rewrite !applyDefaults_fields. simpl. now rewrite !pick_twice.
Qed.

Lemma updateBenchmark_twice (l f : BenchmarkConfiguration) (b : Benchmark) :
  updateBenchmark l f (updateBenchmark l f b) = updateBenchmark l f b.
Proof.
  unfold updateBenchmark. simpl. rewrite applyDefaults_twice. f_equal.
  destruct (String.eqb_spec (UniqueName b) "") as [_|Hne].
  - destruct (String.eqb (Name b) ""); reflexivity.
  - destruct (String.eqb_spec (UniqueName b) ""); [contradiction|reflexivity].
Qed.

(** C9: the defaulting pass is idempotent. *)
Theorem C9_updateBenchmarks_idempotent
    (flagConfiguration : BenchmarkConfiguration) (benchmarks : BenchmarkList) :
  updateBenchmarks flagConfiguration (updateBenchmarks flagConfiguration benchmarks)
  = updateBenchmarks flagConfiguration benchmarks.
Proof.
  unfold updateBenchmarks. simpl. f_equal.
  rewrite map_map. apply map_ext. intros b. apply updateBenchmark_twice.
Qed.

(** ** Metric selection and the regression verdict *)

Lemma scoreTokens_nsPerOp (tokens : list string) (score : comparedScore) :
  nsPerOp (scoreTokens tokens score) = nsPerOp score || existsb (String.eqb "ns/op") tokens.
Proof.
  revert score. induction tokens as [|cc rest IH]; intros score;
    cbn [scoreTokens existsb].
  - now rewrite orb_false_r.
  - rewrite IH. rewrite (String.eqb_sym "ns/op" cc).
    destruct (String.eqb cc "ns/op"); cbn [nsPerOp orb]; [now rewrite orb_true_r|].
    destruct (String.eqb cc "B/op"); reflexivity.
Qed.

Lemma scoreTokens_allocedBytesPerOp (tokens : list string) (score : comparedScore) :
  allocedBytesPerOp (scoreTokens tokens score)
  = allocedBytesPerOp score || existsb (String.eqb "B/op") tokens.
Proof.
  revert score. induction tokens as [|cc rest IH]; intros score;
    cbn [scoreTokens existsb].
  - now rewrite orb_false_r.
  - rewrite IH. rewrite (String.eqb_sym "B/op" cc).
    destruct (String.eqb_spec cc "ns/op") as [->|Hns]; [reflexivity|].
    destruct (String.eqb cc "B/op"); cbn [allocedBytesPerOp orb];
      [now rewrite orb_true_r|reflexivity].
Qed.

Lemma existsb_eqb_In (x : string) (l : list string) :
  existsb (String.eqb x) l = true <-> In x l.
Proof.
  rewrite existsb_exists. split.
  - intros [y [Hy Heq]]. apply String.eqb_eq in Heq. now subst.
  - intros Hx. exists x. split; [assumption|apply String.eqb_refl].
Qed.

(** A metric is selected exactly when its token is one of the fields
    between the commas of the compare string. *)
Lemma whichScoreToCompare_nsPerOp (c : string) :
  nsPerOp (whichScoreToCompare c) = true <-> In "ns/op" (GoStrings.Split c ",").
Proof.
  unfold whichScoreToCompare. rewrite scoreTokens_nsPerOp. cbn [nsPerOp orb].
  apply existsb_eqb_In.
Qed.

Lemma whichScoreToCompare_allocedBytesPerOp (c : string) :
  allocedBytesPerOp (whichScoreToCompare c) = true <-> In "B/op" (GoStrings.Split c ",").
Proof.
  unfold whichScoreToCompare. rewrite scoreTokens_allocedBytesPerOp.
  cbn [allocedBytesPerOp orb]. apply existsb_eqb_In.
Qed.

Lemma showRatioStep_verdict (onlyRegression : bool)
    (acc : list (list (Cell * Color)) * bool) (r : result) :
  snd (showRatioStep onlyRegression acc r) = snd acc || regressed r.
Proof.
  destruct acc as [table regression]. unfold showRatioStep, regressed. simpl.
  destruct (nsPerOp _ && PrimFloat.ltb _ _); simpl; [now rewrite orb_true_r|].
  destruct (allocedBytesPerOp _ && PrimFloat.ltb _ _); simpl; [now rewrite orb_true_r|].
  rewrite orb_false_r. destruct onlyRegression; reflexivity.
Qed.

Lemma showRatio_fold_verdict (onlyRegression : bool) (results : list result)
    (acc : list (list (Cell * Color)) * bool) :
  snd (fold_left (showRatioStep onlyRegression) results acc)
  = snd acc || existsb regressed results.
Proof.
  revert acc. induction results as [|r results IH]; intros acc; simpl.
  - now rewrite orb_false_r.
  - rewrite IH, showRatioStep_verdict. now rewrite orb_assoc.
Qed.

Lemma showRatio_verdict (w : Writer) (results : list result) (onlyRegression : bool)
    (compareWith : string) :
  snd (showRatio w results onlyRegression compareWith) = existsb regressed results.
Proof.
  unfold showRatio.
  pose proof (showRatio_fold_verdict onlyRegression results ([], false)) as H.
  destruct (fold_left _ results _) as [table regression]. simpl in H.
  destruct table; simpl; exact H.
Qed.

(** C7: [showRatio] is a total function whose boolean is true exactly when
    some result has a selected metric whose ratio is strictly above the
    threshold of its benchmark. *)
Theorem C7_showRatio_verdict (w : Writer) (results : list result)
    (onlyRegression : bool) (compareWith : string) :
  snd (showRatio w results onlyRegression compareWith) = true
  <-> exists r, In r results
      /\ ((In "ns/op" (GoStrings.Split (Compare (Configuration (ResultBenchmark r))) ",")
           /\ PrimFloat.ltb (Threshold (Configuration (ResultBenchmark r)))
                (RatioNsPerOp r) = true)
          \/ (In "B/op" (GoStrings.Split (Compare (Configuration (ResultBenchmark r))) ",")
              /\ PrimFloat.ltb (Threshold (Configuration (ResultBenchmark r)))
                   (RatioAllocedBytesPerOp r) = true)).
Proof.
  rewrite showRatio_verdict, existsb_exists.
  split; intros [r [Hin Hr]]; exists r; (split; [exact Hin|]).
  - unfold regressed in Hr. apply orb_true_iff in Hr.
    destruct Hr as [Hr|Hr]; apply andb_true_iff in Hr; destruct Hr as [Hs Hlt].
    + left. split; [now apply whichScoreToCompare_nsPerOp|exact Hlt].
    + right. split; [now apply whichScoreToCompare_allocedBytesPerOp|exact Hlt].
  - unfold regressed. apply orb_true_iff.
    destruct Hr as [[Hs Hlt]|[Hs Hlt]]; [left|right]; apply andb_true_iff; split;
      try exact Hlt.
    + now apply whichScoreToCompare_nsPerOp.
    + now apply whichScoreToCompare_allocedBytesPerOp.
Qed.




(** ** Hard resets performed by the orchestration *)

Lemma Grows_same {A} (m : M A) :
  (forall w, resets (snd (m w)) = resets w) -> Grows m.
Proof. intros H w. exists []. now rewrite app_nil_r. Qed.

Lemma Grows_ret {A} (a : A) : Grows (ret a).
Proof. now apply Grows_same. Qed.

Lemma Grows_fail {A} (e : error) : Grows (@fail A e).
Proof. now apply Grows_same. Qed.

Lemma Grows_bind {A B} (m : M A) (k : A -> M B) :
  Grows m -> (forall a, Grows (k a)) -> Grows (bind m k).
Proof.
  intros Hm Hk w. unfold bind. destruct (Hm w) as [l1 H1].
  destruct (m w) as [[e|a] w1]; simpl in *.
  - now exists l1.
  - destruct (Hk a w1) as [l2 H2]. exists (l1 ++ l2).
    now rewrite H2, H1, app_assoc.
Qed.

Lemma Grows_wrapErr {A} (wrap : error -> error) (m : M A) :
  Grows m -> Grows (wrapErr wrap m).
Proof.
  intros Hm w. unfold wrapErr. destruct (Hm w) as [l H].
  destruct (m w) as [[e|a] w1]; now exists l.
Qed.

Lemma Grows_if {A} (c : bool) (m1 m2 : M A) :
  Grows m1 -> Grows m2 -> Grows (if c then m1 else m2).
Proof. now destruct c. Qed.

Lemma resets_klogAll (msgs : list string) (w : World) :
  resets (fold_left (fun w msg => klog msg w) msgs w) = resets w.
Proof. revert w. induction msgs as [|m msgs IH]; intros w; simpl; [|rewrite IH]; reflexivity. Qed.

Lemma Grows_klogAll (msgs : list string) : Grows (klogAll msgs).
Proof. apply Grows_same. intros w. apply resets_klogAll. Qed.

Lemma Grows_klog (msg : string) : Grows (modify (klog msg)).
Proof. now apply Grows_same. Qed.

Lemma Grows_printResult (rows : list (list Cell)) : Grows (printResult rows).
Proof. now apply Grows_same. Qed.

Lemma Grows_printRatio (results : list result) (onlyRegression : bool)
    (compareWith : string) : Grows (printRatio results onlyRegression compareWith).
Proof.
  apply Grows_same. intros w. unfold printRatio.
  now destruct (showRatio _ _ _ _).
Qed.

Lemma Grows_Reset (env : Env) (commit : Hash) : Grows (Reset env commit).
Proof. intros w. now exists [(commit, gitResetOk env (length (resets w)) commit)]. Qed.

Lemma resets_runBenchmarksStep (env : Env) (command tagVersion : string)
    (st : BenchSet * World) (b : Benchmark) :
  resets (snd (runBenchmarksStep env command tagVersion st b)) = resets (snd st).
Proof.
  destruct st as [set w]. unfold runBenchmarksStep.
  repeat match goal with
         | |- context [if ?c then _ else _] => destruct c
         | |- context [match ?x with _ => _ end] => destruct x
         end; reflexivity.
Qed.

Lemma Grows_runBenchmarks (env : Env) (benchmarks : BenchmarkList) (tagVersion : string) :
  Grows (runBenchmarks env benchmarks tagVersion).
Proof.
  apply Grows_same. intros w. unfold runBenchmarks.
  assert (H : forall l st,
             resets (snd (fold_left
                            (runBenchmarksStep env (Command benchmarks) tagVersion) l st))
             = resets (snd st)).
  { induction l as [|b l IH]; intros st; simpl; [reflexivity|].
    now rewrite IH, resets_runBenchmarksStep. }
  specialize (H (Benchmarks benchmarks) (∅, w)).
  now destruct (fold_left _ _ _).
Qed.

Lemma resets_collectTag (st : list (Reference * semver.Version) * World) (t : Reference) :
  resets (snd (collectTag st t)) = resets (snd st).
Proof.
  destruct st as [tags w]. unfold collectTag.
  destruct (semver.Make _) as [v []]; reflexivity.
Qed.

Lemma Grows_getLatestRelease (env : Env) : Grows (getLatestRelease env).
Proof.
  apply Grows_same. intros w. unfold getLatestRelease.
  destruct (gitTags env) as [[tagRefs ok]|]; [|reflexivity].
  assert (H : forall l st, resets (snd (fold_left collectTag l st)) = resets (snd st)).
  { induction l as [|t l IH]; intros st; simpl; [reflexivity|].
    now rewrite IH, resets_collectTag. }
  specialize (H tagRefs ([], w)).
  destruct (fold_left _ _ _) as [tags w1]. simpl in H.
  destruct (sortSlice _ _ tags); simpl; exact H.
Qed.

Create HintDb grows.
#[local] Hint Resolve Grows_ret Grows_fail Grows_wrapErr Grows_if Grows_klogAll
  Grows_klog Grows_printResult Grows_printRatio Grows_Reset Grows_runBenchmarks
  Grows_getLatestRelease : grows.

Ltac grows :=
  repeat first
    [ apply Grows_bind; [|intros ?]
    | progress auto with grows
    | match goal with |- Grows (match ?x with _ => _ end) => destruct x end ].

Lemma Grows_resetAndRunBenchmark (env : Env) (benchmarks : BenchmarkList)
    (commit : Hash) (ref : string) (isTag : bool) :
  Grows (resetAndRunBenchmark env benchmarks commit ref isTag).
Proof. unfold resetAndRunBenchmark. grows. Qed.

#[local] Hint Resolve Grows_resetAndRunBenchmark : grows.



(** The ways out of [run] after the first checkout, on concrete worlds: no
    regression, a regression, a hard reset that fails, no release tag.  Each
    ends with the reset to HEAD ([c9]). *)
Example run_success :
  run (Examples.env true Examples.resetsSucceed [Examples.releaseTag] Examples.steady)
    Examples.world0
  = (inr tt,
     mkWorld (CleanAt "c9") [("c8", true); ("c2", true); ("c9", true); ("c9", true)] 3
       (stdout (snd (run (Examples.env true Examples.resetsSucceed [Examples.releaseTag]
                            Examples.steady) Examples.world0)))
       ["Run Benchmark"; "Latest tag version"; "Run Benchmark"; "Run Benchmark"]).
Proof. vm_compute. reflexivity. Qed.

Example run_regression :
  run (Examples.env true Examples.resetsSucceed [Examples.releaseTag] Examples.measure)
    Examples.world0
  = (inl (ErrRegression true true),
     mkWorld (CleanAt "c9") [("c8", true); ("c2", true); ("c9", true); ("c9", true)] 3
       (stdout (snd (run (Examples.env true Examples.resetsSucceed [Examples.releaseTag]
                            Examples.measure) Examples.world0)))
       ["Run Benchmark"; "Latest tag version"; "Run Benchmark"; "Run Benchmark"]).
Proof. vm_compute. reflexivity. Qed.

Example run_failed_reset :
  run (Examples.env true Examples.secondResetFails [Examples.releaseTag] Examples.measure)
    Examples.world0
  = (inl (ErrReset "c2" "v1.0.0"),
     mkWorld (CleanAt "c9") [("c8", true); ("c2", false); ("c9", true)] 1 []
       ["Run Benchmark"; "Latest tag version"]).
Proof. vm_compute. reflexivity. Qed.

Example run_no_release_found :
  run (Examples.env true Examples.resetsSucceed [] Examples.measure) Examples.world0
  = (inl (ErrLatestRelease ErrNoVersionTags),
     mkWorld (CleanAt "c9") [("c8", true); ("c9", true)] 1 [] ["Run Benchmark"]).
Proof. vm_compute. reflexivity. Qed.

(** C3: with a working copy that is not clean, [run] returns an error and
    leaves the world as it was: no hard reset, no command, no output.  When
    the steps before the status check succeed, the error is the one about
    the dirty repository. *)
Theorem C3_dirty_working_copy_aborts (env : Env) (w : World) :
  gitStatusIsClean env = Some false ->
  (exists e, run env w = (inl e, w))
  /\ (configFile env <> None -> gitPlainOpen env = true -> gitHead env <> None ->
      gitResolveRevision env (baseRef env) <> None -> gitWorktree env = true ->
      run env w = (inl ErrDirty, w)).
Proof.
  intros Hdirty. unfold run, bind, ofOption, ret, fail. rewrite Hdirty.
  destruct (configFile env) as [benchmarks|].
  2:{ split; [eauto|]. intros H; now destruct H. }
  destruct (gitPlainOpen env).
  2:{ split; [eauto|]. intros _ H; discriminate. }
  destruct (gitHead env) as [head|].
  2:{ split; [eauto|]. intros _ _ H; now destruct H. }
  destruct (gitResolveRevision env (baseRef env)) as [prev|].
  2:{ split; [eauto|]. intros _ _ _ H; now destruct H. }
  destruct (gitWorktree env).
  2:{ split; [eauto|]. intros _ _ _ _ H; discriminate. }
  simpl. split; [eauto|reflexivity].
Qed.

Lemma C3_dirty_working_copy_aborts_witness :
  run (Examples.env false Examples.resetsSucceed [Examples.releaseTag] Examples.measure)
    Examples.world0
  = (inl ErrDirty, Examples.world0).
Proof.
  refine (proj2 (C3_dirty_working_copy_aborts
                   (Examples.env false Examples.resetsSucceed [Examples.releaseTag]
                      Examples.measure)
                   Examples.world0 _) _ _ _ _ _);
    try reflexivity; discriminate.
Defined.

(** ** The comparison loop *)

Section CompareFacts.

Variables (baseRef tagName : string) (headSet prevSet : BenchSet)
          (latestReleaseSet : option BenchSet).

Let step := compareStep baseRef tagName headSet prevSet latestReleaseSet.

Lemma compareStep_missing (acc : Comparison) (b : Benchmark) :
  headSet !! UniqueName b = None ->
  step acc b
  = mkComparison (rows acc) (ratios acc) (ratiosWithRelease acc)
      (errorLog acc ++ [missingBenchmark (UniqueName b)]).
Proof. intros H. unfold step, compareStep. now rewrite H. Qed.

Lemma compareStep_sameTables (a a' : Comparison) (b : Benchmark) :
  sameTables a a' -> sameTables (step a b) (step a' b).
Proof.
  intros (Hrows & Hratios & Hrel). unfold step, compareStep, sameTables.
  destruct (headSet !! UniqueName b) as [headBench|]; simpl; [|now rewrite Hrows].
  destruct (prevSet !! UniqueName b) as [prevBench|]; simpl; [|now rewrite Hrows].
  destruct latestReleaseSet as [releaseSet|]; simpl; [|now rewrite Hrows, Hratios].
  destruct (releaseSet !! UniqueName b); simpl; now rewrite Hrows, Hratios, ?Hrel.
Qed.

Lemma compareFold_sameTables (l : list Benchmark) (a a' : Comparison) :
  sameTables a a' -> sameTables (fold_left step l a) (fold_left step l a').
Proof.
  revert a a'. induction l as [|b l IH]; intros a a' H; simpl; [exact H|].
  apply IH, compareStep_sameTables, H.
Qed.

Lemma compareStep_errorLog (acc : Comparison) (b : Benchmark) (msg : string) :
  In msg (errorLog acc) -> In msg (errorLog (step acc b)).
Proof.
  intros H. unfold step, compareStep.
  repeat match goal with
         | |- context [match ?x with _ => _ end] => destruct x
         end; simpl; try exact H.
  apply in_or_app. now left.
Qed.

Lemma compareFold_errorLog (l : list Benchmark) (acc : Comparison) (msg : string) :
  In msg (errorLog acc) -> In msg (errorLog (fold_left step l acc)).
Proof.
  revert acc. induction l as [|b l IH]; intros acc H; simpl; [exact H|].
  apply IH, compareStep_errorLog, H.
Qed.

End CompareFacts.

(** C8, as amended: a configured benchmark with no result at HEAD adds an
    error line to the log and nothing else; the loop goes on, and the rows
    and the ratios it produces are those it produces without that
    benchmark.  The loop has no way to stop with an error. *)
Theorem C8_missing_head_result (baseRef tagName : string) (headSet prevSet : BenchSet)
    (latestReleaseSet : option BenchSet) (before after : list Benchmark) (b : Benchmark) :
  headSet !! UniqueName b = None ->
  let withB :=
    compareLoop baseRef tagName headSet prevSet latestReleaseSet (before ++ b :: after) in
  let withoutB :=
    compareLoop baseRef tagName headSet prevSet latestReleaseSet (before ++ after) in
  rows withB = rows withoutB
  /\ ratios withB = ratios withoutB
  /\ ratiosWithRelease withB = ratiosWithRelease withoutB
  /\ In (missingBenchmark (UniqueName b)) (errorLog withB).
Proof.
  intros Hmissing withB withoutB. subst withB withoutB. unfold compareLoop.
  rewrite !fold_left_app. simpl.
  rewrite (compareStep_missing _ _ _ _ _ _ _ Hmissing).
  set (acc := fold_left _ before _).
  assert (Hsame : sameTables
                    (mkComparison (rows acc) (ratios acc) (ratiosWithRelease acc)
                       (errorLog acc ++ [missingBenchmark (UniqueName b)]))
                    acc) by (repeat split).
  pose proof (compareFold_sameTables baseRef tagName headSet prevSet latestReleaseSet
                after _ _ Hsame) as (H1 & H2 & H3).
  repeat split; try assumption.
  apply compareFold_errorLog. simpl. apply in_or_app. right. now left.
Qed.

Lemma C8_missing_head_result_witness :
  let withB :=
    compareLoop "HEAD~1" "" ∅ {[ "BenchmarkA" := Examples.baseA ]} None
      ([] ++ Examples.benchmarkA1 :: []) in
  let withoutB :=
    compareLoop "HEAD~1" "" ∅ {[ "BenchmarkA" := Examples.baseA ]} None ([] ++ []) in
  rows withB = rows withoutB
  /\ ratios withB = ratios withoutB
  /\ ratiosWithRelease withB = ratiosWithRelease withoutB
  /\ In (missingBenchmark (UniqueName Examples.benchmarkA1)) (errorLog withB).
Proof.
  apply (C8_missing_head_result "HEAD~1" "" ∅ {[ "BenchmarkA" := Examples.baseA ]} None
           [] [] Examples.benchmarkA1).
  reflexivity.
Defined.

(** C8 as stated fails: with no result at HEAD for [BenchmarkA] the loop
    records no row at all for it, placeholder or other; the only trace is the
    error line in the log. *)
Lemma C8_no_placeholder_row_counterexample :
  (∅ : BenchSet) !! UniqueName Examples.benchmarkA1 = None
  /\ rows (compareLoop "HEAD~1" "" ∅ {[ "BenchmarkA" := Examples.baseA ]} None
             [Examples.benchmarkA1]) = []
  /\ errorLog (compareLoop "HEAD~1" "" ∅ {[ "BenchmarkA" := Examples.baseA ]} None
                 [Examples.benchmarkA1]) = ["missing benchmark 'BenchmarkA'"].
Proof. vm_compute. repeat split. Qed.

(** ** The latest release, in general *)

Lemma insertLess_In {A} (less : A -> A -> bool) (x y : A) (l : list A) :
  In y (insertLess less x l) <-> y = x \/ In y l.
Proof.
  induction l as [|z l IH]; simpl.
  - intuition.
  - destruct (less x z); simpl; rewrite ?IH; intuition.
Qed.

Lemma insertionSort_In {A} (less : A -> A -> bool) (y : A) (l : list A) :
  In y (insertionSort less l) <-> In y l.
Proof.
  unfold insertionSort. rewrite <- in_rev.
  assert (H : forall acc, In y (fold_left (fun revPrefix x => insertLess less x revPrefix) l acc)
                          <-> In y acc \/ In y l).
  { induction l as [|x l IH]; intros acc; simpl.
    - intuition.
    - rewrite IH, insertLess_In. intuition. }
  rewrite H. simpl. intuition.
Qed.

Lemma insertAt_In {A} (n : nat) (x y : A) (l : list A) :
  In y (insertAt n x l) <-> y = x \/ In y l.
Proof.
  revert n. induction l as [|z l IH]; intros [|n]; simpl;
    rewrite ?IH; intuition congruence.
Qed.

Lemma rearrange_In {A} (order : list nat) (y : A) (l : list A) :
  In y (rearrange order l) <-> In y l.
Proof.
  revert order. induction l as [|x l IH]; intros [|n order]; simpl; try tauto.
  rewrite insertAt_In, IH. intuition congruence.
Qed.

Lemma sortSlice_In {A} (order : list nat) (less : A -> A -> bool) (y : A)
    (l : list A) :
  In y (sortSlice order less l) <-> In y l.
Proof. unfold sortSlice. now rewrite insertionSort_In, rearrange_In. Qed.

Lemma collectTag_fold (tagRefs : list Reference)
    (tags : list (Reference * semver.Version)) (w : World) :
  fst (fold_left collectTag tagRefs (tags, w))
  = tags ++ map (fun t => (t, versionOf (RefShort t))) tagRefs.
Proof.
  revert tags w. induction tagRefs as [|t tagRefs IH]; intros tags w;
    cbn [fold_left map].
  - simpl. now rewrite app_nil_r.
  - assert (Hstep : exists w', collectTag (tags, w) t
                               = (tags ++ [(t, versionOf (RefShort t))], w')).
    { unfold collectTag, versionOf.
      destruct (semver.Make (trimTagVersion (RefShort t))) as [v ok]. simpl. eauto. }
    destruct Hstep as [w' ->]. now rewrite IH, <- app_assoc.
Qed.

(** Whether the tag names parse plays no part in the outcome: as soon as
    the repository has a tag and the enumeration succeeds, one of the tags
    is returned. *)
Lemma getLatestRelease_some_tag (env : Env) (w : World) (tagRefs : list Reference) :
  gitTags env = Some (tagRefs, true) -> tagRefs <> [] ->
  exists t, In t tagRefs /\ fst (getLatestRelease env w) = inr t.
Proof.
  intros Htags Hne. unfold getLatestRelease. rewrite Htags.
  pose proof (collectTag_fold tagRefs [] w) as Hfold.
  destruct (fold_left collectTag tagRefs ([], w)) as [tags w1]. simpl in Hfold.
  destruct (sortSlice _ _ tags) as [|t sorted] eqn:Hsort.
  - exfalso. destruct tagRefs as [|t0 rest]; [now apply Hne|].
    assert (Hin : In (t0, versionOf (RefShort t0)) tags) by (rewrite Hfold; now left).
    apply (sortSlice_In (sortSliceOrder env) (fun t1 t2 => semver.GT (snd t1) (snd t2))) in Hin.
    now rewrite Hsort in Hin.
  - exists (fst t). split; [|reflexivity].
    assert (Hin : In t tags).
    { apply (sortSlice_In (sortSliceOrder env) (fun t1 t2 => semver.GT (snd t1) (snd t2))).
      rewrite Hsort. now left. }
    rewrite Hfold in Hin. apply in_map_iff in Hin.
    destruct Hin as [t0 [<- Hin]]. exact Hin.
Qed.

(** A repository with one tag: that tag is returned, whether its name
    parses or not and however [sort.Slice] works. *)
Lemma getLatestRelease_only_tag (env : Env) (w : World) (t : Reference) :
  gitTags env = Some ([t], true) -> fst (getLatestRelease env w) = inr t.
Proof.
  intros Htags.
  destruct (getLatestRelease_some_tag env w [t] Htags) as (t' & [<-|[]] & Ht);
    [discriminate|exact Ht].
Qed.

(** ** Ratios, in general *)

(** Against the baseline the guard and the divisor are the same
    measurement. *)
Lemma baseline_ratios (prevBench headBench : parse.Benchmark) :
  getRationsPerOP prevBench headBench prevBench
  = (if isZero64 (parse.NsPerOp prevBench) then PrimFloat.zero
     else (parse.NsPerOp headBench - parse.NsPerOp prevBench) / parse.NsPerOp prevBench)%float
  /\ getRatioAllocedBytesPerOp prevBench headBench prevBench
     = (if N.eqb (parse.AllocedBytesPerOp prevBench) 0 then PrimFloat.zero
        else (float64_of_uint64 (parse.AllocedBytesPerOp headBench)
              - float64_of_uint64 (parse.AllocedBytesPerOp prevBench))
             / float64_of_uint64 (parse.AllocedBytesPerOp prevBench))%float.
Proof.
  unfold getRationsPerOP, getRatioAllocedBytesPerOp.
  destruct (isZero64 _), (N.eqb _ 0); split; reflexivity.
Qed.

(** Against the release the guard is on the baseline: the release metric
    is the divisor whenever the baseline metric is not zero, whatever the
    release metric is. *)
Lemma release_ratio_guard (prevBench headBench releaseBench : parse.Benchmark) :
  isZero64 (parse.NsPerOp prevBench) = false ->
  getRationsPerOP prevBench headBench releaseBench
  = ((parse.NsPerOp headBench - parse.NsPerOp releaseBench)
     / parse.NsPerOp releaseBench)%float.
Proof. intros H. unfold getRationsPerOP. now rewrite H. Qed.

(** C2, at the failing input: the baseline measured 100 ns/op and 10 B/op,
    the release 120 ns/op and 0 B/op, HEAD 150 ns/op and 20 B/op.  Against
    the baseline the ratios are 0.5 and 1.  Against the release the time
    ratio is 0.25, and the bytes closure tests the baseline's 10 B/op, divides
    by the release's 0 B/op and yields +infinity where the claim gives 0.
    With the two older measurements exchanged the bytes ratio against the
    release is 0 although the release measured 10 B/op, where the claim
    gives 1. *)
Theorem C2_release_ratio_divides_by_zero :
  let cmp :=
    compareLoop "HEAD~1" "refs/tags/v1.0.0"
      {[ "BenchmarkA" := Examples.headA ]} {[ "BenchmarkA" := Examples.baseA ]}
      (Some {[ "BenchmarkA" := Examples.releaseA ]}) [Examples.benchmarkA1] in
  let swapped :=
    compareLoop "HEAD~1" "refs/tags/v1.0.0"
      {[ "BenchmarkA" := Examples.headA ]} {[ "BenchmarkA" := Examples.releaseA ]}
      (Some {[ "BenchmarkA" := Examples.baseA ]}) [Examples.benchmarkA1] in
  ratios cmp = [mkResult Examples.benchmarkA1 0.5%float 1%float]
  /\ ratiosWithRelease cmp
     = [mkResult Examples.benchmarkA1 0.25%float PrimFloat.infinity]
  /\ snd (showRatio [] (ratiosWithRelease cmp) false "refs/tags/v1.0.0") = true
  /\ ratiosWithRelease swapped
     = [mkResult Examples.benchmarkA1 0.5%float PrimFloat.zero].
Proof. vm_compute. repeat split. Qed.

(** C4, at the failing input: a repository whose only tag, [nightly], is not
    a semantic version.  The tag is logged as skipped and then kept with the
    zero version, so it is returned as the latest release and no error is
    raised.  Kept that way it also ranks above the valid tag
    [v0.0.0-rc.1]. *)
Theorem C4_unparseable_tag_returned :
  semver.Parse (trimTagVersion (RefShort Examples.nightlyTag)) = None
  /\ fst (getLatestRelease (Examples.env true Examples.resetsSucceed [Examples.nightlyTag]
               Examples.measure)
            Examples.world0)
     = inr Examples.nightlyTag
  /\ semver.Parse (trimTagVersion (RefShort Examples.candidateTag))
     = Some (semver.mkVersion 0 0 0
               [semver.mkPR "rc" 0 false; semver.mkPR "" 1 true] [])
  /\ fst (getLatestRelease
            (Examples.env true Examples.resetsSucceed
               [Examples.candidateTag; Examples.nightlyTag] Examples.measure)
            Examples.world0)
     = inr Examples.nightlyTag.
Proof. vm_compute. repeat split. Qed.

(** * Further properties *)

(** ** The semantic-version order is a total preorder *)

Lemma orders_tie {A} (cmp : A -> A -> Z) (a b c : A) :
  orders cmp -> cmp a b <= 0 -> cmp b c <= 0 -> cmp a c = 0 ->
  cmp a b = 0 /\ cmp b c = 0.
Proof.
  intros (Hrange & Hanti & Htrans) Hab Hbc Hac.
  assert (Hca : cmp c a <= 0) by (rewrite (Hanti a c); lia).
  pose proof (Htrans c a b Hca Hab) as Hcb. rewrite (Hanti b c) in Hcb.
  pose proof (Htrans b c a Hbc Hca) as Hba. rewrite (Hanti a b) in Hba.
  lia.
Qed.

Lemma orders_lexCompare {A} (first second : A -> A -> Z) :
  orders first -> orders second -> orders (lexCompare first second).
Proof.
  intros H1 H2.
  pose proof H1 as (R1 & A1 & T1). pose proof H2 as (R2 & A2 & T2).
  unfold lexCompare. repeat split.
  - intros a b. destruct (Z.eqb_spec (first a b) 0); [apply R2|].
    destruct (R1 a b) as [H|[H|H]]; auto.
  - intros a b. rewrite (A1 a b).
    destruct (Z.eqb_spec (first a b) 0) as [->|Hne]; simpl; [apply A2|].
    destruct (Z.eqb_spec (- first a b) 0); [lia|reflexivity].
  - intros a b c Hab Hbc.
    assert (Hab1 : first a b <= 0).
    { destruct (Z.eqb_spec (first a b) 0); lia. }
    assert (Hbc1 : first b c <= 0).
    { destruct (Z.eqb_spec (first b c) 0); lia. }
    pose proof (T1 a b c Hab1 Hbc1) as Hac1.
    destruct (Z.eqb_spec (first a c) 0) as [Hac0|Hne]; [|exact Hac1].
    destruct (orders_tie first a b c H1 Hab1 Hbc1 Hac0) as [E1 E2].
    rewrite E1 in Hab. rewrite E2 in Hbc. simpl in *. now apply T2 with b.
Qed.

Lemma orders_on {A B} (f : A -> B) (cmp : B -> B -> Z) :
  orders cmp -> orders (fun a b => cmp (f a) (f b)).
Proof. intros (R & An & T). repeat split; intros; eauto. Qed.

Lemma orders_cmpN : orders semver.cmpN.
Proof.
  repeat split.
  - apply cmpN_range.
  - intros a b. apply cmpN_antisym.
  - intros a b c. unfold semver.cmpN.
    destruct (N.eqb_spec a b), (N.eqb_spec b c), (N.eqb_spec a c),
      (N.ltb_spec b a), (N.ltb_spec c b), (N.ltb_spec c a); lia.
Qed.

Lemma string_compare_trans (a b c : string) :
  String.compare a b <> Gt -> String.compare b c <> Gt -> String.compare a c <> Gt.
Proof.
  intros Hab Hbc.
  assert (Lab : String.le a b).
  { unfold String.le, String.leb. destruct (String.compare a b); simpl; auto. }
  assert (Lbc : String.le b c).
  { unfold String.le, String.leb. destruct (String.compare b c); simpl; auto. }
  pose proof (transitivity Lab Lbc) as Lac.
  unfold String.le, String.leb in Lac. intros E. now rewrite E in Lac.
Qed.

Lemma orders_PRCompare : orders semver.PRCompare.
Proof.
  repeat split.
  - apply PRCompare_range.
  - intros a b. apply PRCompare_antisym.
  - intros a b c. unfold semver.PRCompare.
    destruct (semver.IsNum a), (semver.IsNum b), (semver.IsNum c); simpl; try lia.
    + destruct orders_cmpN as (_ & _ & T). apply T.
    + pose proof (string_compare_trans (semver.VersionStr a) (semver.VersionStr b)
                    (semver.VersionStr c)) as T.
      destruct (String.compare (semver.VersionStr a) (semver.VersionStr b)),
        (String.compare (semver.VersionStr b) (semver.VersionStr c)),
        (String.compare (semver.VersionStr a) (semver.VersionStr c));
        try lia; intros; exfalso; apply T; congruence.
Qed.

Lemma comparePre_trans (a b c : list semver.PRVersion) :
  semver.comparePre a b <= 0 -> semver.comparePre b c <= 0 -> semver.comparePre a c <= 0.
Proof.
  revert b c. induction a as [|x a IH]; intros [|y b] [|z c]; simpl; try lia.
  intros Hab Hbc.
  pose proof orders_PRCompare as HO. pose proof HO as (R & An & T).
  assert (Hxy : semver.PRCompare x y <= 0).
  { destruct (R x y) as [H|[H|H]]; rewrite H in *; simpl in *; lia. }
  assert (Hyz : semver.PRCompare y z <= 0).
  { destruct (R y z) as [H|[H|H]]; rewrite H in *; simpl in *; lia. }
  pose proof (T x y z Hxy Hyz) as Hxz.
  destruct (Z.eqb_spec (semver.PRCompare x z) 0) as [E|Hne].
  - destruct (orders_tie _ x y z HO Hxy Hyz E) as [E1 E2].
    rewrite E1 in Hab. rewrite E2 in Hbc. simpl in *. now apply IH with b.
  - destruct (R x z) as [H|[H|H]]; rewrite H in *; simpl; lia.
Qed.

Lemma orders_comparePreFields : orders comparePreFields.
Proof.
  repeat split.
  - intros [|x a] [|y b]; unfold comparePreFields; auto using comparePre_range.
  - intros [|x a] [|y b]; try reflexivity.
    unfold comparePreFields. apply comparePre_antisym.
  - intros [|x a] [|y b] [|z c]; unfold comparePreFields; try lia.
    apply comparePre_trans.
Qed.

Lemma Compare_lex (v o : semver.Version) :
  semver.Compare v o
  = lexCompare (fun a b => semver.cmpN (semver.Major a) (semver.Major b))
      (lexCompare (fun a b => semver.cmpN (semver.Minor a) (semver.Minor b))
         (lexCompare (fun a b => semver.cmpN (semver.Patch a) (semver.Patch b))
            (fun a b => comparePreFields (semver.Pre a) (semver.Pre b)))) v o.
Proof.
  unfold semver.Compare, lexCompare, semver.cmpN, comparePreFields.
  destruct (N.eqb (semver.Major v) (semver.Major o)); simpl;
    [|destruct (N.ltb _ _); reflexivity].
  destruct (N.eqb (semver.Minor v) (semver.Minor o)); simpl;
    [|destruct (N.ltb _ _); reflexivity].
  destruct (N.eqb (semver.Patch v) (semver.Patch o)); simpl;
    [|destruct (N.ltb _ _); reflexivity].
  destruct (semver.Pre v), (semver.Pre o); reflexivity.
Qed.

Lemma orders_Compare : orders semver.Compare.
Proof.
  assert (H : orders
                (lexCompare (fun a b => semver.cmpN (semver.Major a) (semver.Major b))
                   (lexCompare (fun a b => semver.cmpN (semver.Minor a) (semver.Minor b))
                      (lexCompare
                         (fun a b => semver.cmpN (semver.Patch a) (semver.Patch b))
                         (fun a b => comparePreFields (semver.Pre a) (semver.Pre b)))))).
  { repeat apply orders_lexCompare;
      try apply (orders_on _ _ orders_cmpN);
      apply (orders_on semver.Pre _ orders_comparePreFields). }
  destruct H as (R & An & T).
  split; [|split].
  - intros a b. rewrite Compare_lex. apply R.
  - intros a b. rewrite !Compare_lex. apply An.
  - intros a b c. rewrite !Compare_lex. apply T.
Qed.

Lemma Compare_refl (v : semver.Version) : semver.Compare v v = 0.
Proof. pose proof (Compare_antisym v v). lia. Qed.

Lemma Compare_trans (a b c : semver.Version) :
  semver.Compare a b <= 0 -> semver.Compare b c <= 0 -> semver.Compare a c <= 0.
Proof. destruct orders_Compare as (_ & _ & T). apply T. Qed.

(** A version above one that is at least a third is above the third. *)
Lemma Compare_gt_ge (a b c : semver.Version) :
  0 < semver.Compare a b -> 0 <= semver.Compare b c -> 0 < semver.Compare a c.
Proof.
  intros Hab Hbc.
  destruct (Z.lt_ge_cases 0 (semver.Compare a c)) as [H|H]; [exact H|exfalso].
  assert (Hcb : semver.Compare c b <= 0) by (rewrite (Compare_antisym b c); lia).
  pose proof (Compare_trans a c b H Hcb). lia.
Qed.

Lemma Compare_ge_gt (a b c : semver.Version) :
  0 <= semver.Compare a b -> 0 < semver.Compare b c -> 0 < semver.Compare a c.
Proof.
  intros Hab Hbc.
  destruct (Z.lt_ge_cases 0 (semver.Compare a c)) as [H|H]; [exact H|exfalso].
  assert (Hba : semver.Compare b a <= 0) by (rewrite (Compare_antisym a b); lia).
  pose proof (Compare_trans b a c Hba H). lia.
Qed.

Lemma Compare_ge_ge (a b c : semver.Version) :
  0 <= semver.Compare a b -> 0 <= semver.Compare b c -> 0 <= semver.Compare a c.
Proof.
  intros Hab Hbc.
  assert (H1 : semver.Compare c b <= 0) by (rewrite (Compare_antisym b c); lia).
  assert (H2 : semver.Compare b a <= 0) by (rewrite (Compare_antisym a b); lia).
  pose proof (Compare_trans c b a H1 H2). rewrite (Compare_antisym a c) in H. lia.
Qed.

(** ** Version requirements: prefixes and monotonicity *)

Lemma trimTagVersion_prefixes (n : nat) (t : string) :
  trimTagVersion (String.append (versionPrefixes n) t) = trimTagVersion t.
Proof. induction n as [|n IH]; [reflexivity|exact IH]. Qed.

(** X1: any number of [v] bytes in front of the tag changes nothing:
    [v1.3.0], [vv1.3.0] and [1.3.0] satisfy the same requirements. *)
Theorem X1_tag_prefix_insignificant (n : nat) (c t : string) :
  versionRequired c (String.append (versionPrefixes n) t) = versionRequired c t.
Proof.
  unfold versionRequired. now rewrite trimTagVersion_prefixes.
Qed.

(** X2: a requirement with the operator [>=] or [>] that a tag satisfies is
    satisfied by every tag whose version is at least as high. *)
Theorem X2_lower_bound_monotone (c t t' : string) :
  GoStrings.HasPrefix (GoStrings.TrimSpace c) ">" = true ->
  versionRequired c t = true ->
  0 <= semver.Compare (versionOf t') (versionOf t) ->
  versionRequired c t' = true.
Proof.
  intros Hop Ht Hle. unfold versionRequired in *.
  destruct (String.eqb c ""); [reflexivity|].
  fold (versionOf t) in Ht. fold (versionOf t').
  destruct (GoStrings.HasPrefix (GoStrings.TrimSpace c) ">=").
  - apply GTE_iff. apply GTE_iff in Ht. now apply Compare_ge_ge with (versionOf t).
  - rewrite Hop in *. apply GT_iff. apply GT_iff in Ht.
    now apply Compare_ge_gt with (versionOf t).
Qed.

Lemma X2_lower_bound_monotone_witness :
  versionRequired ">=1.9.0" "v2.0.0" = true.
Proof.
  apply (X2_lower_bound_monotone ">=1.9.0" "1.10.0" "v2.0.0").
  - reflexivity.
  - reflexivity.
  - vm_compute. discriminate.
Defined.

(** ** The latest release is a tag of highest version *)

Lemma tagAtMost_refl (a : Reference * semver.Version) : tagAtMost a a.
Proof. unfold tagAtMost. rewrite Compare_refl. lia. Qed.

Lemma tagAtMost_trans (a b c : Reference * semver.Version) :
  tagAtMost a b -> tagAtMost b c -> tagAtMost a c.
Proof. apply Compare_trans. Qed.

Lemma tagLess_false (x y : Reference * semver.Version) :
  tagLess x y = false -> tagAtMost x y.
Proof.
  unfold tagLess, tagAtMost. intros H.
  destruct (Z.lt_ge_cases 0 (semver.Compare (snd x) (snd y))) as [Hlt|Hge]; [|lia].
  apply GT_iff in Hlt. congruence.
Qed.

Lemma tagLess_true (x y : Reference * semver.Version) :
  tagLess x y = true -> tagAtMost y x.
Proof.
  unfold tagLess, tagAtMost. intros H. apply GT_iff in H.
  rewrite (Compare_antisym (snd x) (snd y)). lia.
Qed.

(** The reversed prefix that the insertion sort keeps is in ascending
    order. *)
Lemma insertLess_sorted (x : Reference * semver.Version)
    (l : list (Reference * semver.Version)) :
  StronglySorted tagAtMost l -> StronglySorted tagAtMost (insertLess tagLess x l).
Proof.
  induction 1 as [|y l Hl IH Hy]; simpl.
  - constructor; [constructor|constructor].
  - destruct (tagLess x y) eqn:Hxy.
    + constructor; [exact IH|].
      apply List.Forall_forall. intros z Hz. apply insertLess_In in Hz.
      destruct Hz as [->|Hz]; [now apply tagLess_true|].
      rewrite List.Forall_forall in Hy. now apply Hy.
    + apply tagLess_false in Hxy. constructor.
      * now constructor.
      * constructor; [exact Hxy|].
        apply List.Forall_forall. intros z Hz. rewrite List.Forall_forall in Hy.
        apply tagAtMost_trans with y; [exact Hxy|now apply Hy].
Qed.

Lemma sorted_last_is_highest (l : list (Reference * semver.Version))
    (h : Reference * semver.Version) (rest : list (Reference * semver.Version)) :
  StronglySorted tagAtMost l -> rev l = h :: rest ->
  forall y, In y l -> tagAtMost y h.
Proof.
  intros Hs. revert h rest. induction Hs as [|a l Hl IH Ha]; intros h rest Hrev y Hy.
  - destruct Hy.
  - simpl in Hrev. destruct (rev l) as [|h' rest'] eqn:Hl'.
    + assert (l = []) by (rewrite <- (rev_involutive l), Hl'; reflexivity). subst l.
      simpl in Hrev. injection Hrev as <- <-.
      destruct Hy as [->|[]]. apply tagAtMost_refl.
    + simpl in Hrev. injection Hrev as <- <-.
      assert (Hh : In h' l).
      { apply in_rev. rewrite Hl'. now left. }
      destruct Hy as [->|Hy].
      * rewrite List.Forall_forall in Ha. now apply Ha.
      * now apply (IH h' rest' eq_refl).
Qed.

Lemma insertionSort_fold_sorted (l acc : list (Reference * semver.Version)) :
  StronglySorted tagAtMost acc ->
  StronglySorted tagAtMost
    (fold_left (fun revPrefix x => insertLess tagLess x revPrefix) l acc).
Proof.
  revert acc. induction l as [|x l IH]; intros acc Hacc; simpl; [exact Hacc|].
  apply IH. now apply insertLess_sorted.
Qed.

Lemma insertionSort_head_highest (l : list (Reference * semver.Version))
    (h : Reference * semver.Version) (rest : list (Reference * semver.Version)) :
  insertionSort tagLess l = h :: rest -> forall y, In y l -> tagAtMost y h.
Proof.
  intros Hsort y Hy. unfold insertionSort in Hsort.
  pose proof (insertionSort_fold_sorted l [] (SSorted_nil _)) as Hs.
  apply (sorted_last_is_highest _ h rest Hs Hsort).
  apply in_rev. rewrite Hsort.
  apply (insertionSort_In tagLess) in Hy. unfold insertionSort in Hy.
  now rewrite Hsort in Hy.
Qed.

(** Whatever the order of the elements that compare equal, the first
    element of the sorted slice ranks at least as high as every element. *)
Lemma sortSlice_head_highest (order : list nat) (l : list (Reference * semver.Version))
    (h : Reference * semver.Version) (rest : list (Reference * semver.Version)) :
  sortSlice order tagLess l = h :: rest -> forall y, In y l -> tagAtMost y h.
Proof.
  unfold sortSlice. intros Hsort y Hy.
  apply (insertionSort_head_highest _ _ _ Hsort). now apply rearrange_In.
Qed.

(** *** What [sortSlice] stands for: the results that [sort.Slice] may give *)

Lemma StronglySorted_snoc {A} (R : A -> A -> Prop) (l : list A) (a : A) :
  StronglySorted R l -> Forall (fun x => R x a) l -> StronglySorted R (l ++ [a]).
Proof.
  induction 1 as [|b l Hl IH Hb]; intros Ha; simpl.
  - constructor; constructor.
  - inversion Ha as [|? ? Hba Hla]; subst. constructor; [now apply IH|].
    apply Forall_app. split; [exact Hb|]. constructor; [exact Hba|constructor].
Qed.

Lemma StronglySorted_rev {A} (R : A -> A -> Prop) (l : list A) :
  StronglySorted R l -> StronglySorted (fun a b => R b a) (rev l).
Proof.
  induction 1 as [|a l Hl IH Ha]; simpl; [constructor|].
  apply StronglySorted_snoc; [exact IH|].
  rewrite List.Forall_forall in *. intros x Hx. apply Ha. now apply in_rev.
Qed.

Lemma StronglySorted_weaken {A} (R S : A -> A -> Prop) (l : list A) :
  (forall a b, R a b -> S a b) -> StronglySorted R l -> StronglySorted S l.
Proof.
  intros HRS. induction 1 as [|a l Hl IH Ha]; constructor; [exact IH|].
  rewrite List.Forall_forall in *. auto.
Qed.

Lemma StronglySorted_middle {A} (R : A -> A -> Prop) (a : list A) (y : A) (b : list A) :
  StronglySorted R (a ++ y :: b) -> Forall (R y) b.
Proof.
  induction a as [|x a IH]; simpl; intros H; inversion H; subst; auto.
Qed.

Lemma tagAtMost_not_less (a b : Reference * semver.Version) :
  tagAtMost b a -> tagLess b a = false.
Proof.
  unfold tagAtMost, tagLess. intros H.
  destruct (semver.GT (snd b) (snd a)) eqn:E; [|reflexivity].
  apply GT_iff in E. lia.
Qed.

(** The result is sorted: no element is [less] than an earlier one. *)
Lemma sortSlice_sorted (order : list nat) (l : list (Reference * semver.Version)) :
  StronglySorted (fun a b => tagLess b a = false) (sortSlice order tagLess l).
Proof.
  unfold sortSlice, insertionSort.
  apply (StronglySorted_weaken (fun a b => tagAtMost b a)); [apply tagAtMost_not_less|].
  apply StronglySorted_rev, insertionSort_fold_sorted. constructor.
Qed.

Lemma insertLess_Permutation {A} (less : A -> A -> bool) (x : A) (l : list A) :
  Permutation (x :: l) (insertLess less x l).
Proof.
  induction l as [|y l IH]; simpl; [reflexivity|].
  destruct (less x y); [|reflexivity].
  rewrite <- IH. apply perm_swap.
Qed.

Lemma insertionSort_Permutation {A} (less : A -> A -> bool) (l : list A) :
  Permutation l (insertionSort less l).
Proof.
  unfold insertionSort. rewrite <- Permutation_rev.
  assert (H : forall acc,
             Permutation (l ++ acc)
               (fold_left (fun revPrefix x => insertLess less x revPrefix) l acc)).
  { induction l as [|x l IH]; intros acc; simpl; [reflexivity|].
    rewrite <- IH, <- insertLess_Permutation. apply Permutation_middle. }
  rewrite <- H. now rewrite app_nil_r.
Qed.

Lemma insertAt_Permutation {A} (n : nat) (x : A) (l : list A) :
  Permutation (x :: l) (insertAt n x l).
Proof.
  revert n. induction l as [|y l IH]; intros [|n]; simpl; try reflexivity.
  rewrite <- IH. apply perm_swap.
Qed.

Lemma rearrange_Permutation {A} (order : list nat) (l : list A) :
  Permutation l (rearrange order l).
Proof.
  revert order. induction l as [|x l IH]; intros [|n order]; simpl; try reflexivity.
  rewrite <- insertAt_Permutation. now constructor.
Qed.

(** The result is a rearrangement of the slice. *)
Lemma sortSlice_Permutation {A} (order : list nat) (less : A -> A -> bool) (l : list A) :
  Permutation l (sortSlice order less l).
Proof.
  unfold sortSlice. rewrite <- insertionSort_Permutation. apply rearrange_Permutation.
Qed.

Lemma insertAt_length {A} (x : A) (l1 l2 : list A) :
  insertAt (length l1) x (l1 ++ l2) = l1 ++ x :: l2.
Proof.
  induction l1 as [|y l1 IH]; simpl; [now destruct l2|]. now rewrite IH.
Qed.

Lemma rearrange_any {A} (l s : list A) :
  Permutation l s -> exists order, rearrange order l = s.
Proof.
  revert s. induction l as [|x l IH]; intros s Hperm.
  - apply Permutation_nil in Hperm. subst s. now exists [].
  - assert (Hin : In x s) by (apply (Permutation_in _ Hperm); now left).
    apply in_split in Hin. destruct Hin as (s1 & s2 & ->).
    apply Permutation_cons_app_inv in Hperm.
    destruct (IH _ Hperm) as [order Horder].
    exists (length s1 :: order). simpl. rewrite Horder. apply insertAt_length.
Qed.

(** The insertion sort leaves a sorted slice as it is. *)
Lemma insertionSort_sorted {A} (less : A -> A -> bool) (s : list A) :
  StronglySorted (fun a b => less b a = false) s -> insertionSort less s = s.
Proof.
  intros Hs. unfold insertionSort.
  assert (H : forall q p,
             StronglySorted (fun a b => less b a = false) (p ++ q) ->
             fold_left (fun revPrefix x => insertLess less x revPrefix) q (rev p)
             = rev (p ++ q)).
  { clear. induction q as [|x q IH]; intros p Hpq; simpl.
    - now rewrite app_nil_r.
    - assert (Hx : insertLess less x (rev p) = rev (p ++ [x])).
      { rewrite rev_app_distr. simpl.
        destruct (rev p) as [|y r] eqn:Hp; [reflexivity|]. simpl.
        assert (Hp' : p = rev r ++ [y]).
        { rewrite <- (rev_involutive p), Hp. reflexivity. }
        rewrite Hp', <- app_assoc in Hpq. simpl in Hpq.
        apply StronglySorted_middle in Hpq.
        inversion Hpq as [|? ? Hyx _]; subst. now rewrite Hyx. }
      rewrite Hx, IH; rewrite <- app_assoc; [reflexivity|exact Hpq]. }
  pose proof (H s [] Hs) as E. simpl in E. rewrite E. apply rev_involutive.
Qed.

(** Every rearrangement of the slice that is sorted is a result of
    [sortSlice], for a suitable order of the elements that compare equal:
    in particular the one that the [sort.Slice] of the toolchain gives. *)
Lemma sortSlice_any_result {A} (less : A -> A -> bool) (l s : list A) :
  Permutation l s -> StronglySorted (fun a b => less b a = false) s ->
  exists order, sortSlice order less l = s.
Proof.
  intros Hperm Hs. destruct (rearrange_any l s Hperm) as [order Horder].
  exists order. unfold sortSlice. rewrite Horder. now apply insertionSort_sorted.
Qed.

(** What [getLatestRelease] returns does not depend on the world, which
    only receives its log lines. *)
Lemma getLatestRelease_any_world (env : Env) (w w' : World) :
  fst (getLatestRelease env w) = fst (getLatestRelease env w').
Proof.
  unfold getLatestRelease. destruct (gitTags env) as [[tagRefs ok]|]; [|reflexivity].
  pose proof (collectTag_fold tagRefs [] w) as H.
  pose proof (collectTag_fold tagRefs [] w') as H'.
  destruct (fold_left collectTag tagRefs ([], w)) as [tags w1].
  destruct (fold_left collectTag tagRefs ([], w')) as [tags' w1'].
  simpl in H, H'. subst tags tags'.
  destruct (sortSlice _ _ _); reflexivity.
Qed.

Lemma getLatestRelease_highest (env : Env) (w : World) (tagRefs : list Reference) :
  gitTags env = Some (tagRefs, true) -> tagRefs <> [] ->
  exists t,
    fst (getLatestRelease env w) = inr t
    /\ In t tagRefs
    /\ forall t', In t' tagRefs ->
         semver.Compare (versionOf (RefShort t')) (versionOf (RefShort t)) <= 0.
Proof.
  intros Htags Hne. unfold getLatestRelease. rewrite Htags.
  pose proof (collectTag_fold tagRefs [] w) as Hfold.
  destruct (fold_left collectTag tagRefs ([], w)) as [tags w1]. simpl in Hfold.
  change (fun t1 t2 : Reference * semver.Version => semver.GT (snd t1) (snd t2))
    with tagLess.
  destruct (sortSlice (sortSliceOrder env) tagLess tags) as [|h sorted] eqn:Hsort.
  - exfalso. destruct tagRefs as [|t0 rest]; [now apply Hne|].
    assert (Hin : In (t0, versionOf (RefShort t0)) tags) by (rewrite Hfold; now left).
    apply (sortSlice_In (sortSliceOrder env) tagLess) in Hin. now rewrite Hsort in Hin.
  - assert (Hh : In h tags).
    { apply (sortSlice_In (sortSliceOrder env) tagLess). rewrite Hsort. now left. }
    rewrite Hfold in Hh. apply in_map_iff in Hh. destruct Hh as [t [<- Ht]].
    exists t. repeat split; [exact Ht|].
    intros t' Ht'.
    apply (sortSlice_head_highest _ tags _ sorted Hsort (t', versionOf (RefShort t'))).
    rewrite Hfold. apply in_map_iff. now exists t'.
Qed.

(** Two tags of one version, [v1.0.0] and [1.0.0]: both rank highest, and
    which one is returned is decided by the order in which [sort.Slice]
    leaves them. *)
Example latest_release_of_tied_tags :
  fst (getLatestRelease
         (Examples.envSorting [] [Examples.releaseTag; Examples.plainReleaseTag])
         Examples.world0) = inr Examples.releaseTag
  /\ fst (getLatestRelease
            (Examples.envSorting [1%nat] [Examples.releaseTag; Examples.plainReleaseTag])
            Examples.world0) = inr Examples.plainReleaseTag.
Proof. vm_compute. split; reflexivity. Qed.

(** X3: when the repository has a tag and the enumeration succeeds,
    [getLatestRelease] returns one of the tags, and no tag has a higher
    version than the one returned (a name that does not parse counting as
    0.0.0).  This holds for every order in which [sort.Slice] may leave the
    tags that compare equal. *)
Theorem X3_latest_release_is_highest (env : Env) (w : World) (tagRefs : list Reference) :
  gitTags env = Some (tagRefs, true) -> tagRefs <> [] ->
  exists t,
    fst (getLatestRelease env w) = inr t
    /\ In t tagRefs
    /\ forall t', In t' tagRefs ->
         semver.Compare (versionOf (RefShort t')) (versionOf (RefShort t)) <= 0.
Proof. apply getLatestRelease_highest. Qed.

Lemma X3_latest_release_is_highest_witness :
  exists t,
    fst (getLatestRelease
           (Examples.envSorting [2%nat; 0%nat]
              [Examples.candidateTag; Examples.releaseTag; Examples.plainReleaseTag])
           Examples.world0) = inr t
    /\ In t [Examples.candidateTag; Examples.releaseTag; Examples.plainReleaseTag]
    /\ forall t',
         In t' [Examples.candidateTag; Examples.releaseTag; Examples.plainReleaseTag] ->
         semver.Compare (versionOf (RefShort t')) (versionOf (RefShort t)) <= 0.
Proof.
  apply (X3_latest_release_is_highest
           (Examples.envSorting [2%nat; 0%nat]
              [Examples.candidateTag; Examples.releaseTag; Examples.plainReleaseTag])
           Examples.world0
           [Examples.candidateTag; Examples.releaseTag; Examples.plainReleaseTag]).
  - reflexivity.
  - discriminate.
Defined.

Lemma collectTag_frame (tagRefs : list Reference)
    (st : list (Reference * semver.Version) * World) :
  let w' := snd (fold_left collectTag tagRefs st) in
  worktree w' = worktree (snd st) /\ resets w' = resets (snd st)
  /\ commands w' = commands (snd st) /\ stdout w' = stdout (snd st).
Proof.
  revert st. induction tagRefs as [|t tagRefs IH]; intros st; cbn [fold_left].
  - repeat split.
  - destruct (IH (collectTag st t)) as (H1 & H2 & H3 & H4).
    cbv zeta. rewrite H1, H2, H3, H4.
    destruct st as [tags w]. unfold collectTag.
    destruct (semver.Make _) as [v []]; repeat split.
Qed.

Lemma getLatestRelease_shape (env : Env) (w : World) :
  match gitTags env with
  | None => fst (getLatestRelease env w) = inl ErrGit
  | Some ([], _) => fst (getLatestRelease env w) = inl ErrNoVersionTags
  | Some (_ :: _, false) => fst (getLatestRelease env w) = inl ErrGit
  | Some (t0 :: rest, true) =>
      exists t, In t (t0 :: rest) /\ fst (getLatestRelease env w) = inr t
  end.
Proof.
  destruct (gitTags env) as [[[|t0 rest] ok]|] eqn:Htags.
  - unfold getLatestRelease. now rewrite Htags.
  - destruct ok.
    + apply (getLatestRelease_some_tag env w (t0 :: rest) Htags). discriminate.
    + unfold getLatestRelease. rewrite Htags.
      pose proof (collectTag_fold (t0 :: rest) [] w) as Hfold.
      destruct (fold_left collectTag (t0 :: rest) ([], w)) as [tags w1].
      simpl in Hfold.
      destruct (sortSlice _ _ tags) as [|h sorted] eqn:Hsort; [|reflexivity].
      exfalso.
      assert (Hin : In (t0, versionOf (RefShort t0)) tags) by (rewrite Hfold; now left).
      apply (sortSlice_In (sortSliceOrder env) (fun t1 t2 => semver.GT (snd t1) (snd t2))) in Hin.
      now rewrite Hsort in Hin.
  - unfold getLatestRelease. now rewrite Htags.
Qed.

(** X4: [getLatestRelease] fails in three cases only: the tags cannot be
    listed, there is no tag at all, or the enumeration stops with an error.
    It changes nothing but the log. *)
Theorem X4_latest_release_errors (env : Env) (w : World) :
  (fst (getLatestRelease env w) = inl ErrGit
   <-> gitTags env = None
       \/ exists tagRefs, gitTags env = Some (tagRefs, false) /\ tagRefs <> [])
  /\ (fst (getLatestRelease env w) = inl ErrNoVersionTags
      <-> exists ok, gitTags env = Some ([], ok))
  /\ (forall e, fst (getLatestRelease env w) = inl e -> e = ErrGit \/ e = ErrNoVersionTags)
  /\ worktree (snd (getLatestRelease env w)) = worktree w
  /\ resets (snd (getLatestRelease env w)) = resets w
  /\ commands (snd (getLatestRelease env w)) = commands w
  /\ stdout (snd (getLatestRelease env w)) = stdout w.
Proof.
  assert (Hshape := getLatestRelease_shape env w).
  split; [|split; [|split]].
  - destruct (gitTags env) as [[[|t0 rest] [|]]|].
    + rewrite Hshape. split; [discriminate|].
      intros [H|[l [H Hl]]]; [discriminate|]. injection H as <-. now destruct Hl.
    + rewrite Hshape. split; [discriminate|].
      intros [H|[l [H Hl]]]; [discriminate|]. injection H as <-. now destruct Hl.
    + destruct Hshape as [t [_ ->]]. split; [discriminate|].
      intros [H|[l [H Hl]]]; discriminate.
    + rewrite Hshape. split; [|reflexivity]. intros _. right.
      exists (t0 :: rest). split; [reflexivity|discriminate].
    + rewrite Hshape. split; auto.
  - destruct (gitTags env) as [[[|t0 rest] [|]]|].
    + rewrite Hshape. split; eauto.
    + rewrite Hshape. split; eauto.
    + destruct Hshape as [t [_ ->]]. split; [discriminate|]. intros [ok H]. discriminate.
    + rewrite Hshape. split; [discriminate|]. intros [ok H]. discriminate.
    + rewrite Hshape. split; [discriminate|]. intros [ok H]. discriminate.
  - intros e.
    destruct (gitTags env) as [[[|t0 rest] [|]]|];
      try (rewrite Hshape; intros H; injection H as <-; auto).
    destruct Hshape as [t [_ ->]]. discriminate.
  - unfold getLatestRelease.
    destruct (gitTags env) as [[tagRefs ok]|]; [|repeat split].
    pose proof (collectTag_frame tagRefs ([], w)) as (H1 & H2 & H3 & H4).
    destruct (fold_left collectTag tagRefs ([], w)) as [tags w1]. simpl in *.
    destruct (sortSlice _ _ tags); simpl; repeat split; assumption.
Qed.

(** ** More on the defaulting pass *)

Lemma pick_set {A} (unset : A -> bool) (c d : A) :
  unset d = false -> unset (pick unset c d) = false.
Proof. intros Hd. unfold pick. destruct (unset c) eqn:Hc; assumption. Qed.

Lemma pick_keeps {A} (unset : A -> bool) (c d : A) :
  unset c = false -> pick unset c d = c.
Proof. intros Hc. unfold pick. now rewrite Hc. Qed.

Lemma unsetString_false (s : string) : unsetString s = false <-> s <> "".
Proof. unfold unsetString. apply String.eqb_neq. Qed.

Lemma unsetPointer_false {A} (p : option A) : unsetPointer p = false <-> p <> None.
Proof. destruct p; simpl; split; congruence. Qed.

(** X5: with flags that are all set (as the defaults of [init] are), every
    entry leaves the defaulting pass with every field of its configuration
    set, and its command line can be built: the read of [*Benchmem] in
    [runBenchmark] meets no nil pointer. *)
Theorem X5_defaults_fill_every_field (flags : BenchmarkConfiguration)
    (benchmarks : BenchmarkList) (b : Benchmark) :
  allSet flags ->
  In b (Benchmarks (updateBenchmarks flags benchmarks)) ->
  allSet (Configuration b) /\ runBenchmarkArgs b <> None.
Proof.
  intros (F1 & F2 & F3 & F4 & F5 & F6) Hin.
  unfold updateBenchmarks in Hin. simpl in Hin. apply in_map_iff in Hin.
  destruct Hin as [b0 [<- _]].
  assert (Hall : allSet (Configuration
                           (updateBenchmark (ListConfiguration benchmarks) flags b0))).
  { unfold updateBenchmark. cbn [Configuration]. rewrite !applyDefaults_fields.
    unfold allSet. cbn [Benchtime Threshold Compare Cpu Timeout Benchmem].
    rewrite <- !unsetString_false, <- unsetPointer_false.
    repeat split; apply pick_set; try assumption;
      try (now apply unsetString_false); now apply unsetPointer_false. }
  split; [exact Hall|].
  destruct Hall as (_ & _ & _ & _ & _ & H6). unfold runBenchmarkArgs.
  destruct (Benchmem (Configuration
                        (updateBenchmark (ListConfiguration benchmarks) flags b0)));
    [discriminate|now destruct H6].
Qed.

Lemma X5_defaults_fill_every_field_witness :
  allSet (Configuration Examples.benchmarkA1)
  /\ runBenchmarkArgs Examples.benchmarkA1 <> None.
Proof.
  apply (X5_defaults_fill_every_field Examples.defaultFlags Examples.benchmarkFile
           Examples.benchmarkA1).
  - unfold allSet. repeat split; discriminate.
  - vm_compute. now left.
Defined.

(** X6: the three levels of the defaulting pass.  Each field of an entry
    ends as the first value that is set among the entry's own, the
    list-level one and the flag; so a value set on the entry is never
    changed.  A threshold of zero counts as not set and cannot be kept,
    while [benchmem: false] is a non-nil pointer and is kept. *)
Theorem X6_three_level_precedence (l f : BenchmarkConfiguration) (b : Benchmark) :
  let c := Configuration b in
  let c' := Configuration (updateBenchmark l f b) in
  Benchtime c' = pick unsetString (pick unsetString (Benchtime c) (Benchtime l)) (Benchtime f)
  /\ Threshold c' = pick isZero64 (pick isZero64 (Threshold c) (Threshold l)) (Threshold f)
  /\ Compare c' = pick unsetString (pick unsetString (Compare c) (Compare l)) (Compare f)
  /\ Cpu c' = pick unsetString (pick unsetString (Cpu c) (Cpu l)) (Cpu f)
  /\ Timeout c' = pick unsetString (pick unsetString (Timeout c) (Timeout l)) (Timeout f)
  /\ Benchmem c' = pick unsetPointer (pick unsetPointer (Benchmem c) (Benchmem l)) (Benchmem f)
  /\ (Benchtime c <> "" -> Benchtime c' = Benchtime c)
  /\ (isZero64 (Threshold c) = false -> Threshold c' = Threshold c)
  /\ (Compare c <> "" -> Compare c' = Compare c)
  /\ (Cpu c <> "" -> Cpu c' = Cpu c)
  /\ (Timeout c <> "" -> Timeout c' = Timeout c)
  /\ (Benchmem c = Some false -> Benchmem c' = Some false)
  /\ (isZero64 (Threshold c) = true -> isZero64 (Threshold l) = false ->
      Threshold c' = Threshold l).
Proof.
  intros c c'. subst c c'. unfold updateBenchmark. cbn [Configuration].
  rewrite !applyDefaults_fields. cbn [Benchtime Threshold Compare Cpu Timeout Benchmem].
  repeat split; intros.
  - rewrite !pick_keeps; [reflexivity| |]; rewrite ?pick_keeps;
      now apply unsetString_false.
  - now rewrite !pick_keeps by (rewrite ?pick_keeps; assumption).
  - rewrite !pick_keeps; [reflexivity| |]; rewrite ?pick_keeps;
      now apply unsetString_false.
  - rewrite !pick_keeps; [reflexivity| |]; rewrite ?pick_keeps;
      now apply unsetString_false.
  - rewrite !pick_keeps; [reflexivity| |]; rewrite ?pick_keeps;
      now apply unsetString_false.
  - match goal with H : Benchmem _ = Some false |- _ => rewrite H end. reflexivity.
  - unfold pick at 2. match goal with H : isZero64 _ = true |- _ => rewrite H end.
    now apply pick_keeps.
Qed.

Lemma X6_three_level_precedence_witness :
  Threshold (Configuration
               (updateBenchmark Examples.defaultFlags Examples.defaultFlags
                  Examples.benchmarkA))
  = Threshold Examples.defaultFlags.
Proof.
  refine (proj2 (proj2 (proj2 (proj2 (proj2 (proj2 (proj2 (proj2 (proj2 (proj2
            (proj2 (proj2
               (X6_three_level_precedence Examples.defaultFlags Examples.defaultFlags
                  Examples.benchmarkA)))))))))))) _ _); reflexivity.
Defined.

(** X7: the defaulting pass keeps the number and the order of the entries
    and their names, packages and version requirements; the unique name of
    an entry is its own when set and the name otherwise, so it is empty
    afterwards only if the name is empty. *)
Theorem X7_defaults_keep_the_entries (flags : BenchmarkConfiguration)
    (benchmarks : BenchmarkList) :
  let updated := Benchmarks (updateBenchmarks flags benchmarks) in
  length updated = length (Benchmarks benchmarks)
  /\ map Name updated = map Name (Benchmarks benchmarks)
  /\ map Package updated = map Package (Benchmarks benchmarks)
  /\ map VersionRequirement updated = map VersionRequirement (Benchmarks benchmarks)
  /\ map UniqueName updated
     = map (fun b => if String.eqb (UniqueName b) "" then Name b else UniqueName b)
         (Benchmarks benchmarks)
  /\ Forall (fun b => UniqueName b = "" -> Name b = "") updated.
Proof.
  unfold updateBenchmarks. cbn [Benchmarks].
  rewrite length_map, !map_map. repeat split.
  apply List.Forall_forall. intros b Hb. apply in_map_iff in Hb.
  destruct Hb as [b0 [<- _]]. unfold updateBenchmark. cbn [UniqueName Name].
  destruct (String.eqb_spec (UniqueName b0) ""); congruence.
Qed.

(** ** Running the benchmarks at one revision *)

Lemma runBenchmarksStep_frame (env : Env) (command tagVersion : string)
    (st : BenchSet * World) (b : Benchmark) :
  let st' := runBenchmarksStep env command tagVersion st b in
  worktree (snd st') = worktree (snd st)
  /\ resets (snd st') = resets (snd st)
  /\ stdout (snd st') = stdout (snd st)
  /\ commands (snd st')
     = (commands (snd st) + (if admitted tagVersion b then 1 else 0))%nat.
Proof.
  destruct st as [set w]. unfold runBenchmarksStep, admitted.
  destruct (String.eqb tagVersion ""); simpl;
    [|destruct (versionRequired _ _); simpl];
    repeat case_match; simpl; repeat split; lia.
Qed.

Lemma runBenchmarksStep_keeps (env : Env) (command tagVersion : string)
    (st : BenchSet * World) (b : Benchmark) (k : string) (m : parse.Benchmark) :
  fst st !! k = Some m ->
  fst (runBenchmarksStep env command tagVersion st b) !! k = Some m.
Proof.
  destruct st as [set w]. simpl. intros Hk. unfold runBenchmarksStep.
  repeat case_match; simpl; try exact Hk.
  rewrite lookup_insert_ne; [exact Hk|]. intros E. rewrite E in *. congruence.
Qed.

Lemma runBenchmarksStep_new_key (env : Env) (command tagVersion : string)
    (st : BenchSet * World) (b : Benchmark) (k : string) (m : parse.Benchmark) :
  fst (runBenchmarksStep env command tagVersion st b) !! k = Some m ->
  fst st !! k = Some m \/ (UniqueName b = k /\ admitted tagVersion b = true).
Proof.
  destruct st as [set w]. unfold runBenchmarksStep, admitted.
  destruct (String.eqb tagVersion ""); simpl;
    [|destruct (versionRequired _ _); simpl; [|now left]];
    repeat case_match; simpl; auto;
    (destruct (decide (UniqueName b = k)) as [->|Hne];
     [now right|rewrite lookup_insert_ne by exact Hne; now left]).
Qed.

Lemma runBenchmarks_fold_frame (env : Env) (command tagVersion : string)
    (l : list Benchmark) (st : BenchSet * World) :
  let st' := fold_left (runBenchmarksStep env command tagVersion) l st in
  worktree (snd st') = worktree (snd st)
  /\ resets (snd st') = resets (snd st)
  /\ stdout (snd st') = stdout (snd st)
  /\ commands (snd st')
     = (commands (snd st) + length (List.filter (admitted tagVersion) l))%nat.
Proof.
  revert st. induction l as [|b l IH]; intros st; cbn [fold_left List.filter].
  - cbv zeta. repeat split. simpl. lia.
  - destruct (IH (runBenchmarksStep env command tagVersion st b)) as (H1 & H2 & H3 & H4).
    destruct (runBenchmarksStep_frame env command tagVersion st b) as (G1 & G2 & G3 & G4).
    cbv zeta. rewrite H1, H2, H3, H4, G1, G2, G3, G4.
    repeat split. destruct (admitted tagVersion b); simpl; lia.
Qed.

Lemma runBenchmarks_fold_keeps (env : Env) (command tagVersion : string)
    (l : list Benchmark) (st : BenchSet * World) (k : string) (m : parse.Benchmark) :
  fst st !! k = Some m ->
  fst (fold_left (runBenchmarksStep env command tagVersion) l st) !! k = Some m.
Proof.
  revert st. induction l as [|b l IH]; intros st Hk; simpl; [exact Hk|].
  apply IH. now apply runBenchmarksStep_keeps.
Qed.

Lemma runBenchmarks_fold_keys (env : Env) (command tagVersion : string)
    (l : list Benchmark) (st : BenchSet * World) (k : string) (m : parse.Benchmark) :
  fst (fold_left (runBenchmarksStep env command tagVersion) l st) !! k = Some m ->
  fst st !! k = Some m
  \/ exists b, In b l /\ UniqueName b = k /\ admitted tagVersion b = true.
Proof.
  revert st. induction l as [|b l IH]; intros st Hk; simpl in Hk; [now left|].
  destruct (IH _ Hk) as [H|[b' (Hin & Hname & Hadm)]].
  - destruct (runBenchmarksStep_new_key _ _ _ _ _ _ _ H) as [H'|[Hname Hadm]];
      [now left|].
    right. exists b. repeat split; [now left|assumption..].
  - right. exists b'. repeat split; [now right|assumption..].
Qed.

(** X8: [runBenchmarks] never fails and never touches the working copy, the
    list of resets or the output.  It starts exactly one command for each
    benchmark that passes the version gate (all of them when no tag version
    is given), and every key of the set it returns is the unique name of
    such a benchmark. *)
Theorem X8_runBenchmarks_effects (env : Env) (benchmarks : BenchmarkList)
    (tagVersion : string) (w : World) :
  let w' := snd (runBenchmarks env benchmarks tagVersion w) in
  exists set,
    fst (runBenchmarks env benchmarks tagVersion w) = inr set
    /\ worktree w' = worktree w /\ resets w' = resets w /\ stdout w' = stdout w
    /\ commands w'
       = (commands w + length (List.filter (admitted tagVersion) (Benchmarks benchmarks)))%nat
    /\ (tagVersion = "" ->
        commands w' = (commands w + length (Benchmarks benchmarks))%nat)
    /\ forall k m, set !! k = Some m ->
         exists b, In b (Benchmarks benchmarks) /\ UniqueName b = k
                   /\ admitted tagVersion b = true.
Proof.
  unfold runBenchmarks.
  pose proof (runBenchmarks_fold_frame env (Command benchmarks) tagVersion
                (Benchmarks benchmarks) (∅, w)) as (H1 & H2 & H3 & H4).
  pose proof (runBenchmarks_fold_keys env (Command benchmarks) tagVersion
                (Benchmarks benchmarks) (∅, w)) as Hkeys.
  destruct (fold_left _ (Benchmarks benchmarks) (∅, w)) as [set w1]. simpl in *.
  exists set. repeat split; try assumption.
  - intros ->. rewrite H4. f_equal.
    clear. induction (Benchmarks benchmarks) as [|b l IH]; simpl; [reflexivity|].
    now rewrite IH.
  - intros k m Hk. destruct (Hkeys k m Hk) as [H|H]; [|exact H].
    now rewrite lookup_empty in H.
Qed.

(** X9: measurements once recorded stay: the set obtained for a list of
    benchmarks is contained, entry for entry, in the set obtained when more
    benchmarks follow.  A later benchmark with a unique name already used
    never replaces the first measurement. *)
Theorem X9_runBenchmarks_first_measurement_stays (env : Env)
    (defaults : BenchmarkConfiguration) (command tagVersion : string)
    (before after : list Benchmark) (w : World) :
  exists set1 set2,
    fst (runBenchmarks env (mkBenchmarkList defaults command before) tagVersion w)
    = inr set1
    /\ fst (runBenchmarks env (mkBenchmarkList defaults command (before ++ after))
              tagVersion w) = inr set2
    /\ forall k m, set1 !! k = Some m -> set2 !! k = Some m.
Proof.
  unfold runBenchmarks. cbn [Benchmarks Command]. rewrite fold_left_app.
  pose proof (runBenchmarks_fold_keeps env command tagVersion after
                (fold_left (runBenchmarksStep env command tagVersion) before (∅, w)))
    as Hkeep.
  destruct (fold_left (runBenchmarksStep env command tagVersion) before (∅, w))
    as [set1 w1].
  destruct (fold_left (runBenchmarksStep env command tagVersion) after (set1, w1))
    as [set2 w2].
  exists set1, set2. repeat split. exact Hkeep.
Qed.

(** ** More on the comparison loop *)

Section CompareLoopFacts.

Variables (baseRef tagName : string) (headSet prevSet : BenchSet)
          (latestReleaseSet : option BenchSet).

Let step := compareStep baseRef tagName headSet prevSet latestReleaseSet.
Let loop := compareLoop baseRef tagName headSet prevSet latestReleaseSet.

Lemma appendComparison_assoc (a b c : Comparison) :
  appendComparison (appendComparison a b) c = appendComparison a (appendComparison b c).
Proof. unfold appendComparison. simpl. now rewrite <- !app_assoc. Qed.

Lemma appendComparison_empty_r (a : Comparison) :
  appendComparison a (mkComparison [] [] [] []) = a.
Proof. destruct a. unfold appendComparison. simpl. now rewrite !app_nil_r. Qed.

Lemma compareStep_append (acc : Comparison) (b : Benchmark) :
  step acc b = appendComparison acc (step (mkComparison [] [] [] []) b).
Proof.
  unfold step, compareStep, appendComparison.
  destruct (headSet !! UniqueName b); simpl; [|now rewrite !app_nil_r].
  destruct (prevSet !! UniqueName b); simpl;
    [|now rewrite !app_nil_r, <- !app_assoc].
  destruct latestReleaseSet as [releaseSet|]; simpl;
    [destruct (releaseSet !! UniqueName b); simpl|];
    now rewrite ?app_nil_r, <- ?app_assoc.
Qed.

Lemma compareFold_append (l : list Benchmark) (acc : Comparison) :
  fold_left step l acc = appendComparison acc (loop l).
Proof.
  unfold loop, compareLoop. fold step.
  revert acc. induction l as [|b l IH]; intros acc; simpl.
  - now rewrite appendComparison_empty_r.
  - rewrite IH, (IH (step _ b)), (compareStep_append acc b).
    now rewrite appendComparison_assoc.
Qed.

Lemma compareLoop_app (l1 l2 : list Benchmark) :
  loop (l1 ++ l2) = appendComparison (loop l1) (loop l2).
Proof.
  unfold loop at 1. unfold compareLoop. rewrite fold_left_app. fold step.
  fold (loop l1). unfold loop at 1. unfold compareLoop. fold step.
  apply compareFold_append.
Qed.

Lemma compareLoop_cons (b : Benchmark) (l : list Benchmark) :
  loop (b :: l) = appendComparison (loop [b]) (loop l).
Proof. apply (compareLoop_app [b] l). Qed.

Lemma compareLoop_benchmarks (l : list Benchmark) :
  map ResultBenchmark (ratios (loop l))
  = List.filter (fun b => measured headSet b && measured prevSet b) l
  /\ map ResultBenchmark (ratiosWithRelease (loop l))
     = List.filter
         (fun b => measured headSet b && measured prevSet b
                   && match latestReleaseSet with
                      | Some releaseSet => measured releaseSet b
                      | None => false
                      end) l
  /\ errorLog (loop l)
     = map (fun b => missingBenchmark (UniqueName b))
         (List.filter (fun b => negb (measured headSet b)) l).
Proof.
  induction l as [|b l (IH1 & IH2 & IH3)]; [repeat split|].
  rewrite compareLoop_cons. unfold appendComparison.
  cbn [ratios ratiosWithRelease errorLog List.filter].
  rewrite !map_app, IH1, IH2, IH3.
  unfold loop, compareLoop, compareStep, measured. cbn [fold_left].
  destruct (headSet !! UniqueName b); cbn; [|repeat split].
  destruct (prevSet !! UniqueName b); cbn; [|repeat split].
  destruct latestReleaseSet as [releaseSet|]; cbn; [|repeat split].
  destruct (releaseSet !! UniqueName b); cbn; repeat split.
Qed.

Lemma compareLoop_placeholder (before after : list Benchmark) (b : Benchmark)
    (headBench : parse.Benchmark) :
  headSet !! UniqueName b = Some headBench -> prevSet !! UniqueName b = None ->
  rows (loop (before ++ b :: after))
  = rows (loop before)
    ++ [generateRow "HEAD" headBench;
        [CText (UniqueName b); CText baseRef; CText "-"; CText "-"]]
    ++ rows (loop after)
  /\ ratios (loop (before ++ b :: after)) = ratios (loop (before ++ after))
  /\ ratiosWithRelease (loop (before ++ b :: after))
     = ratiosWithRelease (loop (before ++ after))
  /\ errorLog (loop (before ++ b :: after)) = errorLog (loop (before ++ after)).
Proof.
  intros Hhead Hprev.
  rewrite !compareLoop_app, (compareLoop_cons b after). unfold appendComparison.
  cbn [rows ratios ratiosWithRelease errorLog].
  assert (Hb : loop [b]
               = mkComparison
                   [generateRow "HEAD" headBench;
                    [CText (UniqueName b); CText baseRef; CText "-"; CText "-"]]
                   [] [] []).
  { unfold loop, compareLoop, compareStep. cbn [fold_left]. now rewrite Hhead, Hprev. }
  rewrite Hb. cbn [rows ratios ratiosWithRelease errorLog]. repeat split.
Qed.

(** The ratio that the claim on ratios gives for a pair of measurements. *)
Lemma compareLoop_baseline_ratios (l : list Benchmark) :
  Forall (fun r =>
            exists headBench prevBench,
              headSet !! UniqueName (ResultBenchmark r) = Some headBench
              /\ prevSet !! UniqueName (ResultBenchmark r) = Some prevBench
              /\ RatioNsPerOp r
                 = (if isZero64 (parse.NsPerOp prevBench) then PrimFloat.zero
                    else (parse.NsPerOp headBench - parse.NsPerOp prevBench)
                         / parse.NsPerOp prevBench)%float
              /\ RatioAllocedBytesPerOp r
                 = (if N.eqb (parse.AllocedBytesPerOp prevBench) 0 then PrimFloat.zero
                    else (float64_of_uint64 (parse.AllocedBytesPerOp headBench)
                          - float64_of_uint64 (parse.AllocedBytesPerOp prevBench))
                         / float64_of_uint64 (parse.AllocedBytesPerOp prevBench))%float)
    (ratios (loop l)).
Proof.
  induction l as [|b l IH]; [constructor|].
  rewrite compareLoop_cons. unfold appendComparison. cbn [ratios].
  apply Forall_app. split; [|exact IH].
  unfold loop, compareLoop, compareStep. cbn [fold_left].
  destruct (headSet !! UniqueName b) as [headBench|] eqn:Hh; cbn; [|constructor].
  destruct (prevSet !! UniqueName b) as [prevBench|] eqn:Hp; cbn; [|constructor].
  assert (Hr : exists headBench0 prevBench0,
             headSet !! UniqueName b = Some headBench0
             /\ prevSet !! UniqueName b = Some prevBench0
             /\ getRationsPerOP prevBench headBench prevBench
                = (if isZero64 (parse.NsPerOp prevBench0) then PrimFloat.zero
                   else (parse.NsPerOp headBench0 - parse.NsPerOp prevBench0)
                        / parse.NsPerOp prevBench0)%float
             /\ getRatioAllocedBytesPerOp prevBench headBench prevBench
                = (if N.eqb (parse.AllocedBytesPerOp prevBench0) 0 then PrimFloat.zero
                   else (float64_of_uint64 (parse.AllocedBytesPerOp headBench0)
                         - float64_of_uint64 (parse.AllocedBytesPerOp prevBench0))
                        / float64_of_uint64 (parse.AllocedBytesPerOp prevBench0))%float).
  { exists headBench, prevBench. rewrite Hh, Hp.
    destruct (baseline_ratios prevBench headBench) as [-> ->]. repeat split. }
  destruct latestReleaseSet as [releaseSet|]; cbn;
    [destruct (releaseSet !! UniqueName b); cbn|];
    (constructor; [exact Hr|constructor]).
Qed.

End CompareLoopFacts.

(** X10: the comparison loop treats the benchmarks one by one: the rows,
    the two lists of ratios and the logged errors for a list made of two
    stretches are those of the first stretch followed by those of the
    second. *)
Theorem X10_compareLoop_app (baseRef tagName : string) (headSet prevSet : BenchSet)
    (latestReleaseSet : option BenchSet) (l1 l2 : list Benchmark) :
  compareLoop baseRef tagName headSet prevSet latestReleaseSet (l1 ++ l2)
  = appendComparison
      (compareLoop baseRef tagName headSet prevSet latestReleaseSet l1)
      (compareLoop baseRef tagName headSet prevSet latestReleaseSet l2).
Proof. apply compareLoop_app. Qed.

(** X11: which benchmarks get a ratio.  In configured order, the ratios
    against the baseline are those of the benchmarks measured both at HEAD
    and at the baseline; the ratios against the release are those of the
    benchmarks measured at all three revisions, and there are none when no
    release is compared; the logged errors are those of the benchmarks not
    measured at HEAD. *)
Theorem X11_compareLoop_selects (baseRef tagName : string) (headSet prevSet : BenchSet)
    (latestReleaseSet : option BenchSet) (benchmarks : list Benchmark) :
  let cmp := compareLoop baseRef tagName headSet prevSet latestReleaseSet benchmarks in
  map ResultBenchmark (ratios cmp)
  = List.filter (fun b => measured headSet b && measured prevSet b) benchmarks
  /\ map ResultBenchmark (ratiosWithRelease cmp)
     = List.filter
         (fun b => measured headSet b && measured prevSet b
                   && match latestReleaseSet with
                      | Some releaseSet => measured releaseSet b
                      | None => false
                      end) benchmarks
  /\ errorLog cmp
     = map (fun b => missingBenchmark (UniqueName b))
         (List.filter (fun b => negb (measured headSet b)) benchmarks).
Proof. apply compareLoop_benchmarks. Qed.

(** X12: a benchmark measured at HEAD but not at the baseline gets its HEAD
    row followed by the placeholder row (unique name, base ref, two
    dashes), in its place among the rows, and adds no ratio and no logged
    error. *)
Theorem X12_missing_baseline_placeholder (baseRef tagName : string)
    (headSet prevSet : BenchSet) (latestReleaseSet : option BenchSet)
    (before after : list Benchmark) (b : Benchmark) (headBench : parse.Benchmark) :
  headSet !! UniqueName b = Some headBench -> prevSet !! UniqueName b = None ->
  let loop := compareLoop baseRef tagName headSet prevSet latestReleaseSet in
  rows (loop (before ++ b :: after))
  = rows (loop before)
    ++ [generateRow "HEAD" headBench;
        [CText (UniqueName b); CText baseRef; CText "-"; CText "-"]]
    ++ rows (loop after)
  /\ ratios (loop (before ++ b :: after)) = ratios (loop (before ++ after))
  /\ ratiosWithRelease (loop (before ++ b :: after))
     = ratiosWithRelease (loop (before ++ after))
  /\ errorLog (loop (before ++ b :: after)) = errorLog (loop (before ++ after)).
Proof. intros Hh Hp. now apply compareLoop_placeholder. Qed.

Lemma X12_missing_baseline_placeholder_witness :
  rows (compareLoop "HEAD~1" "" {[ "BenchmarkA" := Examples.headA ]} ∅ None
          ([] ++ Examples.benchmarkA1 :: []))
  = rows (compareLoop "HEAD~1" "" {[ "BenchmarkA" := Examples.headA ]} ∅ None [])
    ++ [generateRow "HEAD" Examples.headA;
        [CText "BenchmarkA"; CText "HEAD~1"; CText "-"; CText "-"]]
    ++ rows (compareLoop "HEAD~1" "" {[ "BenchmarkA" := Examples.headA ]} ∅ None []).
Proof.
  refine (proj1 (X12_missing_baseline_placeholder "HEAD~1" ""
                   {[ "BenchmarkA" := Examples.headA ]} ∅ None [] []
                   Examples.benchmarkA1 Examples.headA _ _)); reflexivity.
Defined.

(** X13: every ratio against the baseline is computed as the formula says:
    for the measurements [h] at HEAD and [p] at the baseline of its
    benchmark, the time ratio is [(h - p) / p], or 0 when [p] is zero, and
    likewise for the bytes; no ratio against the baseline divides by a zero
    metric. *)
Theorem X13_baseline_ratios (baseRef tagName : string) (headSet prevSet : BenchSet)
    (latestReleaseSet : option BenchSet) (benchmarks : list Benchmark) :
  Forall (fun r =>
            exists headBench prevBench,
              headSet !! UniqueName (ResultBenchmark r) = Some headBench
              /\ prevSet !! UniqueName (ResultBenchmark r) = Some prevBench
              /\ RatioNsPerOp r
                 = (if isZero64 (parse.NsPerOp prevBench) then PrimFloat.zero
                    else (parse.NsPerOp headBench - parse.NsPerOp prevBench)
                         / parse.NsPerOp prevBench)%float
              /\ RatioAllocedBytesPerOp r
                 = (if N.eqb (parse.AllocedBytesPerOp prevBench) 0 then PrimFloat.zero
                    else (float64_of_uint64 (parse.AllocedBytesPerOp headBench)
                          - float64_of_uint64 (parse.AllocedBytesPerOp prevBench))
                         / float64_of_uint64 (parse.AllocedBytesPerOp prevBench))%float)
    (ratios (compareLoop baseRef tagName headSet prevSet latestReleaseSet benchmarks)).
Proof. apply compareLoop_baseline_ratios. Qed.

(** ** The comparison table *)

Lemma showRatioStep_table (onlyRegression : bool)
    (acc : list (list (Cell * Color)) * bool) (r : result) :
  fst (showRatioStep onlyRegression acc r)
  = fst acc ++ (if listed onlyRegression r then [ratioLine r] else []).
Proof.
  destruct acc as [table regression].
  unfold showRatioStep, listed, regressed, ratioLine. cbn [fst].
  destruct (nsPerOp _ && PrimFloat.ltb _ _); cbn; [reflexivity|].
  destruct (allocedBytesPerOp _ && PrimFloat.ltb _ _); cbn; [reflexivity|].
  destruct onlyRegression; cbn; [now rewrite app_nil_r|reflexivity].
Qed.

Lemma showRatio_fold_table (onlyRegression : bool) (results : list result)
    (acc : list (list (Cell * Color)) * bool) :
  fst (fold_left (showRatioStep onlyRegression) results acc)
  = fst acc ++ map ratioLine (List.filter (listed onlyRegression) results).
Proof.
  revert acc. induction results as [|r results IH]; intros acc; cbn [fold_left List.filter].
  - cbn. now rewrite app_nil_r.
  - rewrite IH, showRatioStep_table.
    destruct (listed onlyRegression r); cbn; now rewrite <- ?app_assoc, ?app_nil_r.
Qed.

Lemma showRatio_table (w : Writer) (results : list result) (onlyRegression : bool)
    (compareWith : string) :
  fst (showRatio w results onlyRegression compareWith)
  = match List.filter (listed onlyRegression) results with
    | [] => w
    | shown => w ++ [ComparisonTable compareWith (map ratioLine shown)]
    end.
Proof.
  unfold showRatio.
  pose proof (showRatio_fold_table onlyRegression results ([], false)) as H.
  destruct (fold_left _ results _) as [table regression]. cbn in H. subst table.
  destruct (List.filter (listed onlyRegression) results); reflexivity.
Qed.

Lemma showRatio_quiet (w : Writer) (results : list result) (compareWith : string) :
  existsb regressed results = false ->
  fst (showRatio w results true compareWith) = w.
Proof.
  intros Hnone. rewrite showRatio_table.
  assert (H : List.filter (listed true) results = []).
  { induction results as [|r results IH]; [reflexivity|].
    cbn in Hnone. apply orb_false_iff in Hnone. destruct Hnone as [Hr Hrest].
    cbn. unfold listed at 1. rewrite Hr. cbn. now apply IH. }
  now rewrite H.
Qed.

(** X14: what [showRatio] writes.  The results listed are all of them, or
    with only-regression set those over their threshold, in the order
    given, one line each; when none is listed nothing is written, neither
    heading nor table.  In particular with only-regression set and no
    regression the output is left as it was. *)
Theorem X14_showRatio_output (w : Writer) (results : list result)
    (onlyRegression : bool) (compareWith : string) :
  fst (showRatio w results onlyRegression compareWith)
  = match List.filter (fun r => regressed r || negb onlyRegression) results with
    | [] => w
    | shown => w ++ [ComparisonTable compareWith (map ratioLine shown)]
    end
  /\ (onlyRegression = true ->
      snd (showRatio w results onlyRegression compareWith) = false ->
      fst (showRatio w results onlyRegression compareWith) = w)
  /\ (onlyRegression = false ->
      List.filter (fun r => regressed r || negb onlyRegression) results = results).
Proof.
  split; [apply showRatio_table|split].
  - intros -> Hfalse. rewrite showRatio_verdict in Hfalse. now apply showRatio_quiet.
  - intros ->. cbn [negb].
    induction results as [|r results IH]; [reflexivity|].
    cbn [List.filter]. rewrite orb_true_r. now rewrite IH.
Qed.

Lemma X14_showRatio_output_witness :
  fst (showRatio [] [Examples.unselected] true "HEAD~1") = [].
Proof.
  refine (proj1 (proj2 (X14_showRatio_output [] [Examples.unselected] true "HEAD~1"))
            _ _); reflexivity.
Defined.

(** ** The orchestration, path by path *)

Lemma resetAndRunBenchmark_failed (env : Env) (benchmarks : BenchmarkList)
    (commit : Hash) (ref : string) (isTag : bool) (w : World) :
  gitResetOk env (length (resets w)) commit = false ->
  resetAndRunBenchmark env benchmarks commit ref isTag w
  = (inl (ErrReset commit ref),
     mkWorld Unknown (resets w ++ [(commit, false)]) (commands w) (stdout w) (logs w)).
Proof.
  intros Hfail. unfold resetAndRunBenchmark, bind, wrapErr, Reset. now rewrite Hfail.
Qed.

Lemma resetAndRunBenchmark_ok (env : Env) (benchmarks : BenchmarkList)
    (commit : Hash) (ref : string) (isTag : bool) (w : World) :
  gitResetOk env (length (resets w)) commit = true ->
  exists set w',
    resetAndRunBenchmark env benchmarks commit ref isTag w = (inr set, w')
    /\ worktree w' = CleanAt commit
    /\ resets w' = resets w ++ [(commit, true)]
    /\ stdout w' = stdout w
    /\ commands w'
       = (commands w
          + length (List.filter (admitted (if isTag then ref else ""))
                      (Benchmarks benchmarks)))%nat.
Proof.
  intros Hok. unfold resetAndRunBenchmark, bind, wrapErr, Reset, modify.
  rewrite Hok. unfold runBenchmarks.
  match goal with
  | |- context [fold_left ?f ?l (∅, ?w0)] =>
      pose proof (runBenchmarks_fold_frame env (Command benchmarks)
                    (if isTag then ref else "") l (∅, w0)) as (H1 & H2 & H3 & H4);
      destruct (fold_left f l (∅, w0)) as [set w']
  end.
  exists set, w'. simpl in *. repeat split; assumption.
Qed.

Lemma klogAll_frame (msgs : list string) (w : World) :
  let w' := fold_left (fun w msg => klog msg w) msgs w in
  worktree w' = worktree w /\ resets w' = resets w
  /\ commands w' = commands w /\ stdout w' = stdout w.
Proof.
  revert w. induction msgs as [|m msgs IH]; intros w; cbn [fold_left]; [repeat split|].
  destruct (IH (klog m w)) as (H1 & H2 & H3 & H4). cbv zeta.
  rewrite H1, H2, H3, H4. repeat split.
Qed.

Lemma printRatio_spec (results : list result) (onlyRegression : bool)
    (compareWith : string) (w : World) :
  printRatio results onlyRegression compareWith w
  = (inr (existsb regressed results),
     write (fun _ => fst (showRatio (stdout w) results onlyRegression compareWith)) w).
Proof.
  unfold printRatio.
  pose proof (showRatio_verdict (stdout w) results onlyRegression compareWith) as Hv.
  destruct (showRatio _ _ _ _) as [out regression]. simpl in *. now subst.
Qed.

Lemma getLatestRelease_frame (env : Env) (w : World) :
  worktree (snd (getLatestRelease env w)) = worktree w
  /\ resets (snd (getLatestRelease env w)) = resets w
  /\ commands (snd (getLatestRelease env w)) = commands w
  /\ stdout (snd (getLatestRelease env w)) = stdout w.
Proof.
  unfold getLatestRelease.
  destruct (gitTags env) as [[tagRefs ok]|]; [|repeat split].
  pose proof (collectTag_frame tagRefs ([], w)) as (H1 & H2 & H3 & H4).
  destruct (fold_left collectTag tagRefs ([], w)) as [tags w1]. simpl in *.
  destruct (sortSlice _ _ tags); simpl; repeat split; assumption.
Qed.

Lemma getLatestRelease_outcome (env : Env) (w : World) :
  (exists e, (e = ErrGit \/ e = ErrNoVersionTags) /\ fst (getLatestRelease env w) = inl e)
  \/ (exists t, forall w0, fst (getLatestRelease env w0) = inr t).
Proof.
  pose proof (getLatestRelease_shape env w) as H.
  destruct (gitTags env) as [[[|t0 rest] [|]]|] eqn:E; eauto.
  destruct H as [t [Hin Ht]]. right. exists t. intros w0.
  rewrite (getLatestRelease_any_world env w0 w). exact Ht.
Qed.

(** From the checkout of HEAD on: [wk] is the world reached, [rel] the
    release step made before. *)
Ltac run_tail env bl head wk rel Hrel Rk Sk :=
  let Ok3 := fresh "Ok3" in
  let headSet := fresh "headSet" in
  let w4 := fresh "w4" in
  let E4 := fresh "E4" in
  let R4 := fresh "R4" in
  let S4 := fresh "S4" in
  let K2 := fresh "K2" in
  let K4 := fresh "K4" in
  let w5 := fresh "w5" in
  let Ho := fresh "Ho" in
  destruct (gitResetOk env (length (resets wk)) head) eqn:Ok3;
  [ destruct (resetAndRunBenchmark_ok env bl head "HEAD" false wk Ok3)
      as (headSet & w4 & E4 & _ & R4 & S4 & _);
    rewrite E4; unfold klogAll, modify;
    match goal with
    | |- context [fold_left ?f ?msgs w4] =>
        pose proof (klogAll_frame msgs w4) as (_ & K2 & _ & K4);
        cbv zeta in K2, K4;
        set (w5 := fold_left f msgs w4) in *
    end;
    unfold printResult, modify, ret at 1;
    destruct (onlyRegression env) eqn:Ho; rewrite ?printRatio_spec;
    cbn [fst snd]; rewrite ?printRatio_spec; unfold ret, fail;
    match goal with
    | |- DeferredOutcome _ _ _ _ ((if ?a || ?b then _ else _) _) =>
        apply (Compared env head _ _ _ rel a b);
        [ exact Hrel
        | destruct (a || b); reflexivity
        | try (intros; reflexivity); try congruence
        | destruct (a || b); cbn [snd resets write];
          rewrite K2, R4, Rk, <- ?app_assoc; reflexivity
        | let Hq := fresh "Hq" in
          let Hnone := fresh "Hnone" in
          let Ha := fresh "Ha" in
          let Hb := fresh "Hb" in
          intros Hq Hnone; try congruence;
          rewrite Hnone; apply orb_false_iff in Hnone; destruct Hnone as [Ha Hb];
          cbn [snd stdout write];
          rewrite ?showRatio_quiet by assumption;
          cbn [snd stdout write];
          rewrite ?showRatio_quiet by assumption;
          congruence ]
    end
  | rewrite (resetAndRunBenchmark_failed env bl head "HEAD" false wk Ok3);
    apply (HeadResetFailed env head _ _ _ rel);
    [ exact Hrel | reflexivity
    | cbn [snd resets]; rewrite Rk, <- ?app_assoc; reflexivity
    | cbn [snd stdout]; exact Sk ] ].

Lemma runDeferred_outcome (env : Env) (benchmarks : BenchmarkList) (head prev : Hash)
    (w : World) :
  DeferredOutcome env head prev w (runDeferred env benchmarks head prev w).
Proof.
  unfold runDeferred. set (bl := updateBenchmarks _ _). unfold bind.
  destruct (gitResetOk env (length (resets w)) prev) eqn:Ok1.
  2:{ rewrite (resetAndRunBenchmark_failed env bl prev (baseRef env) false w Ok1).
      apply BaseResetFailed; reflexivity. }
  destruct (resetAndRunBenchmark_ok env bl prev (baseRef env) false w Ok1)
    as (prevSet & w1 & E1 & T1 & R1 & S1 & C1).
  rewrite E1.
  destruct (compareLatestVersion env) eqn:Hcmp.
  - unfold wrapErr.
    destruct (getLatestRelease_outcome env w1) as [(e & He & Hfst)|(t & Hany)];
      [|pose proof (Hany w1) as Hfst];
      pose proof (getLatestRelease_frame env w1) as (F1 & F2 & F3 & F4);
      destruct (getLatestRelease env w1) as [[e'|t'] w2]; simpl in Hfst, F1, F2, F3, F4;
      try discriminate.
    + injection Hfst as ->. apply (ReleaseUnresolved _ _ _ _ _ e); simpl; try assumption;
        congruence.
    + injection Hfst as ->.
      destruct (gitResetOk env (length (resets w2)) (RefHash t)) eqn:Ok2.
      2:{ rewrite (resetAndRunBenchmark_failed env bl _ _ true w2 Ok2).
          apply (ReleaseResetFailed _ _ _ _ _ t);
            [ exact Hcmp | exact Hany | reflexivity
            | simpl; rewrite F2, R1, <- app_assoc; reflexivity
            | simpl; congruence ]. }
      destruct (resetAndRunBenchmark_ok env bl (RefHash t) (RefShort t) true w2 Ok2)
        as (releaseSet & w3 & E3 & T3 & R3 & S3 & C3).
      rewrite E3. unfold ret at 1. cbn [fst snd].
      assert (Hrel : releaseStep env [(RefHash t, true)]).
      { right. split; [exact Hcmp|]. exists t. auto. }
      assert (Rk : resets w3 = resets w ++ (prev, true) :: [(RefHash t, true)]).
      { rewrite R3, F2, R1, <- app_assoc. reflexivity. }
      assert (Sk : stdout w3 = stdout w) by congruence.
      run_tail env bl head w3 [(RefHash t, true)] Hrel Rk Sk.
  - unfold ret at 1. cbn [fst snd].
    assert (Hrel : releaseStep env []) by (left; split; auto).
    assert (Rk : resets w1 = resets w ++ (prev, true) :: []) by exact R1.
    run_tail env bl head w1 (@nil (Hash * bool)) Hrel Rk S1.
Qed.

Lemma run_cases (env : Env) (w : World) :
  (exists e, preconditionError e /\ run env w = (inl e, w) /\ ~ preconditionsHold env)
  \/ (exists benchmarks head prev,
        preconditionsHold env
        /\ configFile env = Some benchmarks /\ gitHead env = Some head
        /\ gitResolveRevision env (baseRef env) = Some prev
        /\ run env w
           = (fst (runDeferred env benchmarks head prev w),
              snd (Reset env head (snd (runDeferred env benchmarks head prev w))))).
Proof.
  unfold run, bind, ofOption, ret, fail, preconditionsHold, preconditionError.
  destruct (configFile env) as [benchmarks|] eqn:H1.
  2:{ left. exists ErrConfig. repeat split; auto. intros (H & _). now apply H. }
  destruct (gitPlainOpen env) eqn:H2.
  2:{ left. exists ErrOpen. repeat split; auto 10. intros (_ & H & _). discriminate. }
  destruct (gitHead env) as [head|] eqn:H3.
  2:{ left. exists ErrHead. repeat split; auto 10. intros (_ & _ & H & _). now apply H. }
  destruct (gitResolveRevision env (baseRef env)) as [prev|] eqn:H4.
  2:{ left. exists ErrResolveRevision. repeat split; auto 10.
      intros (_ & _ & _ & H & _). now apply H. }
  destruct (gitWorktree env) eqn:H5.
  2:{ left. exists ErrWorktree. repeat split; auto 10.
      intros (_ & _ & _ & _ & H & _). discriminate. }
  destruct (gitStatusIsClean env) as [[|]|] eqn:H6.
  - right. exists benchmarks, head, prev. cbn. unfold defer.
    destruct (runDeferred env benchmarks head prev w) as [r w1]. cbn.
    repeat split; auto; discriminate.
  - left. exists ErrDirty. cbn. repeat split; auto 10.
    intros (_ & _ & _ & _ & _ & H). discriminate.
  - left. exists ErrStatus. cbn. repeat split; auto 10.
    intros (_ & _ & _ & _ & _ & H). discriminate.
Qed.

Lemma Reset_effect (env : Env) (commit : Hash) (w : World) :
  resets (snd (Reset env commit w))
  = resets w ++ [(commit, gitResetOk env (length (resets w)) commit)]
  /\ stdout (snd (Reset env commit w)) = stdout w
  /\ commands (snd (Reset env commit w)) = commands w.
Proof. repeat split. Qed.



(** X16: one hard reset and what follows it.  The reset is recorded with
    its outcome and nothing is written to the output.  When it fails the
    error names the commit and the ref, no benchmark command is started
    and the state of the working copy is not known; when it succeeds the
    working copy is at the commit and one command is started for each
    benchmark that passes the version gate, which only a tag applies. *)
Theorem X16_resetAndRunBenchmark (env : Env) (benchmarks : BenchmarkList)
    (commit : Hash) (ref : string) (isTag : bool) (w : World) :
  let ok := gitResetOk env (length (resets w)) commit in
  let r := resetAndRunBenchmark env benchmarks commit ref isTag w in
  resets (snd r) = resets w ++ [(commit, ok)]
  /\ stdout (snd r) = stdout w
  /\ (ok = false ->
      fst r = inl (ErrReset commit ref) /\ commands (snd r) = commands w
      /\ worktree (snd r) = Unknown)
  /\ (ok = true ->
      (exists set, fst r = inr set) /\ worktree (snd r) = CleanAt commit
      /\ commands (snd r)
         = (commands w
            + length (List.filter (admitted (if isTag then ref else ""))
                        (Benchmarks benchmarks)))%nat
      /\ (isTag = false ->
          commands (snd r) = (commands w + length (Benchmarks benchmarks))%nat)).
Proof.
  cbv zeta. destruct (gitResetOk env (length (resets w)) commit) eqn:Hok.
  - destruct (resetAndRunBenchmark_ok env benchmarks commit ref isTag w Hok)
      as (set & w' & -> & H1 & H2 & H3 & H4).
    cbn [fst snd]. repeat split; try assumption; try discriminate; eauto.
    intros ->. rewrite H4. f_equal.
    clear. induction (Benchmarks benchmarks) as [|b l IH]; [reflexivity|].
    cbn. now rewrite IH.
  - rewrite (resetAndRunBenchmark_failed env benchmarks commit ref isTag w Hok).
    cbn [fst snd]. repeat split; discriminate.
Qed.

Lemma X16_resetAndRunBenchmark_witness :
  fst (resetAndRunBenchmark
         (Examples.env true Examples.secondResetFails [] Examples.measure)
         Examples.benchmarkFile "c2" "v1.0.0" true
         (mkWorld (CleanAt "c8") [("c8", true)] 1 [] []))
  = inl (ErrReset "c2" "v1.0.0").
Proof.
  refine (proj1 (proj1 (proj2 (proj2
            (X16_resetAndRunBenchmark
               (Examples.env true Examples.secondResetFails [] Examples.measure)
               Examples.benchmarkFile "c2" "v1.0.0" true
               (mkWorld (CleanAt "c8") [("c8", true)] 1 [] [])))) _)).
  reflexivity.
Defined.

(** X17: the checkouts of a run that reaches the comparison.  When [run]
    returns without error or with the regression error, the hard resets it
    performed are, in this order and all but the last known to have
    succeeded: the base revision, the latest release tag when a release is
    compared, HEAD, and HEAD again for the restoration.  The latest release
    tag is the tag that [getLatestRelease] returns: one of the tags of the
    repository, than which none has a higher version. *)
Theorem X17_checkout_sequence (env : Env) (w : World) :
  fst (run env w) = inr tt
  \/ (exists a b, fst (run env w) = inl (ErrRegression a b)) ->
  exists head prev rel ok,
    gitHead env = Some head
    /\ gitResolveRevision env (baseRef env) = Some prev
    /\ resets (snd (run env w))
       = resets w ++ (prev, true) :: rel ++ [(head, true); (head, ok)]
    /\ (if compareLatestVersion env
        then exists t tagRefs,
               rel = [(RefHash t, true)]
               /\ (forall w0, fst (getLatestRelease env w0) = inr t)
               /\ gitTags env = Some (tagRefs, true)
               /\ In t tagRefs
               /\ (forall t', In t' tagRefs ->
                     semver.Compare (versionOf (RefShort t')) (versionOf (RefShort t))
                     <= 0)
        else rel = []).
Proof.
  intros Hres.
  destruct (run_cases env w)
    as [(e & He & Hrun & _)|(bl & head & prev & _ & _ & Hhead & Hprev & Hrun)].
  - exfalso. rewrite Hrun in Hres. cbn in Hres.
    destruct Hres as [H|(a & b & H)]; [discriminate|].
    injection H as ->. unfold preconditionError in He. intuition discriminate.
  - rewrite Hrun in *. cbn [fst snd] in *.
    destruct (Reset_effect env head (snd (runDeferred env bl head prev w))) as (-> & _).
    pose proof (runDeferred_outcome env bl head prev w) as Hout.
    inversion Hout as [r Hf|r e ? ? Hf|r t ? ? Hf|r rel ? Hf|r rel a b Hrel Hf ? Hr];
      try (rewrite Hf in Hres; destruct Hres as [H'|(a' & b' & H')]; discriminate).
    exists head, prev, rel. eexists. repeat split; try assumption.
    + rewrite Hr, <- !app_assoc. cbn. rewrite <- app_assoc. reflexivity.
    + destruct Hrel as [(Hc & ->)|(Hc & t & Hany & ->)]; rewrite Hc; [reflexivity|].
      pose proof (getLatestRelease_shape env w) as Hshape.
      destruct (gitTags env) as [[[|t0 rest] [|]]|] eqn:Htags;
        try (rewrite (Hany w) in Hshape; discriminate).
      destruct (getLatestRelease_highest env w (t0 :: rest) Htags) as (t1 & Ht1 & Hin & Hmax);
        [discriminate|].
      rewrite (Hany w) in Ht1. injection Ht1 as <-.
      exists t, (t0 :: rest). repeat split; assumption.
Qed.

Lemma X17_checkout_sequence_witness :
  exists head prev rel ok,
    gitHead (Examples.envSorting [1%nat] [Examples.releaseTag; Examples.plainReleaseTag])
    = Some head
    /\ gitResolveRevision
         (Examples.envSorting [1%nat] [Examples.releaseTag; Examples.plainReleaseTag])
         "HEAD~1" = Some prev
    /\ resets (snd (run (Examples.envSorting [1%nat]
                          [Examples.releaseTag; Examples.plainReleaseTag])
                     Examples.world0))
       = resets Examples.world0 ++ (prev, true) :: rel ++ [(head, true); (head, ok)]
    /\ exists t tagRefs,
         rel = [(RefHash t, true)]
         /\ (forall w0,
               fst (getLatestRelease
                      (Examples.envSorting [1%nat]
                         [Examples.releaseTag; Examples.plainReleaseTag]) w0) = inr t)
         /\ Some ([Examples.releaseTag; Examples.plainReleaseTag], true)
            = Some (tagRefs, true)
         /\ In t tagRefs
         /\ (forall t', In t' tagRefs ->
               semver.Compare (versionOf (RefShort t')) (versionOf (RefShort t)) <= 0).
Proof.
  apply (X17_checkout_sequence
           (Examples.envSorting [1%nat] [Examples.releaseTag; Examples.plainReleaseTag])
           Examples.world0).
  right. exists true, true. vm_compute. reflexivity.
Defined.

(** X18: the errors of [run].  An error is either that of a step before
    the first checkout; or names a hard reset that failed, which is then the
    last reset before the restoration; or is the failure to find the latest
    release, wrapped; or is the regression error, whose two flags are not
    both false and whose second flag is false when no release is compared.
    The error "failed to run a benchmark" is never returned. *)
Theorem X18_errors_of_run (env : Env) (w : World) (e : error) :
  fst (run env w) = inl e ->
  (preconditionError e /\ snd (run env w) = w)
  \/ (exists commit ref head earlier ok,
        e = ErrReset commit ref /\ gitHead env = Some head
        /\ resets (snd (run env w))
           = resets w ++ earlier ++ [(commit, false); (head, ok)])
  \/ (compareLatestVersion env = true
      /\ (e = ErrLatestRelease ErrGit \/ e = ErrLatestRelease ErrNoVersionTags))
  \/ (exists a b, e = ErrRegression a b /\ a || b = true
                  /\ (compareLatestVersion env = false -> b = false)).
Proof.
  intros Hres.
  destruct (run_cases env w)
    as [(e' & He & Hrun & _)|(bl & head & prev & _ & _ & Hhead & Hprev & Hrun)].
  - left. rewrite Hrun in *. cbn in Hres. injection Hres as ->. auto.
  - right. rewrite Hrun in *. cbn [fst snd] in *.
    destruct (Reset_effect env head (snd (runDeferred env bl head prev w))) as (-> & _).
    pose proof (runDeferred_outcome env bl head prev w) as Hout.
    inversion Hout as [r Hf Hr|r e' Hc He Hf Hr|r t Hc Hany Hf Hr|r rel Hrel Hf Hr
                       |r rel a b Hrel Hf Hb Hr];
      rewrite Hf in Hres.
    + injection Hres as <-. left. exists prev, (baseRef env), head, []. eexists.
      repeat split; [exact Hhead|]. rewrite Hr, <- app_assoc. reflexivity.
    + injection Hres as <-. right. left. split; [exact Hc|].
      destruct He as [-> | ->]; auto.
    + injection Hres as <-. left.
      exists (RefHash t), (RefShort t), head, [(prev, true)]. eexists.
      repeat split; [exact Hhead|]. rewrite Hr, <- !app_assoc. reflexivity.
    + injection Hres as <-. left.
      exists head, "HEAD", head, ((prev, true) :: rel). eexists.
      repeat split; [exact Hhead|]. rewrite Hr, <- !app_assoc. cbn.
      rewrite <- app_assoc. reflexivity.
    + right. right. destruct (a || b) eqn:Hab; [|discriminate].
      injection Hres as <-. exists a, b. auto.
Qed.

Lemma X18_errors_of_run_witness :
  exists commit ref head earlier ok,
    ErrReset "c2" "v1.0.0" = ErrReset commit ref
    /\ gitHead (Examples.env true Examples.secondResetFails [Examples.releaseTag]
                  Examples.measure) = Some head
    /\ resets (snd (run (Examples.env true Examples.secondResetFails
                           [Examples.releaseTag] Examples.measure) Examples.world0))
       = resets Examples.world0 ++ earlier ++ [(commit, false); (head, ok)].
Proof.
  destruct (X18_errors_of_run
              (Examples.env true Examples.secondResetFails [Examples.releaseTag]
                 Examples.measure) Examples.world0 (ErrReset "c2" "v1.0.0"))
    as [[H _]|[H|[[_ H]|H]]].
  - vm_compute. reflexivity.
  - exfalso. unfold preconditionError in H. intuition discriminate.
  - exact H.
  - exfalso. destruct H; discriminate.
  - exfalso. destruct H as (a & b & H & _). discriminate.
Defined.

(** X19: when is the output written.  A run that ends in an error other
    than the regression error has written nothing; with only-regression set
    a run without error has written nothing either. *)
Theorem X19_quiet_runs (env : Env) (w : World) :
  (forall a b, fst (run env w) <> inl (ErrRegression a b)) ->
  (fst (run env w) = inr tt -> onlyRegression env = true) ->
  stdout (snd (run env w)) = stdout w.
Proof.
  intros Hnot Hquiet.
  destruct (run_cases env w)
    as [(e' & He & Hrun & _)|(bl & head & prev & _ & _ & Hhead & Hprev & Hrun)].
  - now rewrite Hrun.
  - rewrite Hrun in *. cbn [fst snd] in *.
    destruct (Reset_effect env head (snd (runDeferred env bl head prev w)))
      as (_ & -> & _).
    pose proof (runDeferred_outcome env bl head prev w) as Hout.
    inversion Hout as [r Hf Hr Hs|r e' Hc He Hf Hr Hs|r t Hc Hany Hf Hr Hs|r rel Hrel Hf Hr Hs
                       |r rel a b Hrel Hf Hb Hr Hs]; try exact Hs.
    destruct (a || b) eqn:Hab.
    + exfalso. apply (Hnot a b). exact Hf.
    + apply Hs; [|reflexivity]. apply Hquiet. exact Hf.
Qed.

Lemma X19_quiet_runs_witness :
  stdout (snd (run (Examples.env true Examples.secondResetFails [Examples.releaseTag]
                      Examples.measure) Examples.world0))
  = stdout Examples.world0.
Proof.
  apply (X19_quiet_runs
           (Examples.env true Examples.secondResetFails [Examples.releaseTag]
              Examples.measure) Examples.world0).
  - intros a b. vm_compute. discriminate.
  - vm_compute. discriminate.
Defined.

(** X20: when no release is compared the tags of the repository are never
    consulted: two environments that differ in their tags only give the
    same run. *)
Theorem X20_tags_unused_without_release
    (flags : BenchmarkConfiguration) (baseRef : string) (onlyRegression : bool)
    (configFile : option BenchmarkList) (plainOpen : bool) (head : option Hash)
    (resolve : string -> option Hash) (worktreeOk : bool) (isClean : option bool)
    (resetOk : nat -> Hash -> bool) (tags tags' : option (list Reference * bool))
    (order : list nat)
    (command : nat -> WorkingCopy -> string -> Benchmark -> option parse.Set_)
    (w : World) :
  run (mkEnv flags baseRef onlyRegression false configFile plainOpen head resolve
         worktreeOk isClean resetOk tags order command) w
  = run (mkEnv flags baseRef onlyRegression false configFile plainOpen head resolve
           worktreeOk isClean resetOk tags' order command) w.
Proof. reflexivity. Qed.

(** ** Which metrics are compared *)

(** X21: a metric is compared exactly when its token is one of the fields
    that the commas of the compare string delimit; the order of the fields
    and their repetition do not matter, other fields are ignored, and the
    empty string selects no metric. *)
Theorem X21_whichScoreToCompare_fields (c : string) :
  (nsPerOp (whichScoreToCompare c) = true <-> In "ns/op" (GoStrings.Split c ","))
  /\ (allocedBytesPerOp (whichScoreToCompare c) = true
      <-> In "B/op" (GoStrings.Split c ","))
  /\ whichScoreToCompare "" = mkComparedScore false false.
Proof.
  split; [apply whichScoreToCompare_nsPerOp|].
  split; [apply whichScoreToCompare_allocedBytesPerOp|reflexivity].
Qed.

(** ** The three operators on one literal *)

Lemma plainByte_not_space_rune (a : ascii) :
  plainByte a ->
  GoStrings.isAsciiSpace a = false
  /\ (forall b, GoStrings.spaceRune2 a b = false)
  /\ (forall b c, GoStrings.spaceRune3 a b c = false).
Proof.
  intros [Hlt Hsp]. split; [exact Hsp|]. split.
  - intros b. unfold GoStrings.spaceRune2.
    destruct (N.eqb_spec (GoStrings.byte_of a) 194); [lia|reflexivity].
  - intros b c. unfold GoStrings.spaceRune3. cbv zeta.
    destruct (N.eqb_spec (GoStrings.byte_of a) 225); [lia|].
    destruct (N.eqb_spec (GoStrings.byte_of a) 226); [lia|].
    destruct (N.eqb_spec (GoStrings.byte_of a) 227); [lia|reflexivity].
Qed.

Lemma spaceWidth_plain (a : ascii) (s : list ascii) :
  plainByte a -> GoStrings.spaceWidth (a :: s) = O.
Proof.
  intros Ha. destruct (plainByte_not_space_rune a Ha) as (H1 & H2 & H3).
  unfold GoStrings.spaceWidth. rewrite H1.
  destruct s as [|b [|c r]]; rewrite ?H2, ?H3; reflexivity.
Qed.

Lemma spaceWidthRev_snoc_plain (a : ascii) (s : list ascii) :
  plainByte a -> s <> [] -> GoStrings.spaceWidthRev s = O ->
  GoStrings.spaceWidthRev (s ++ [a]) = O.
Proof.
  intros Ha Hne Hs. destruct (plainByte_not_space_rune a Ha) as (H1 & H2 & H3).
  destruct s as [|x0 [|x1 [|x2 r]]]; [congruence|..]; cbn in *.
  - destruct (GoStrings.isAsciiSpace x0); [discriminate|]. now rewrite H2.
  - destruct (GoStrings.isAsciiSpace x0); [discriminate|].
    destruct (GoStrings.spaceRune2 x1 x0); [discriminate|]. now rewrite H3.
  - exact Hs.
Qed.

Lemma TrimSpace_fixed_bytes (s : string) :
  GoStrings.TrimSpace s = s ->
  GoStrings.spaceWidth (list_ascii_of_string s) = O
  /\ GoStrings.spaceWidthRev (rev (list_ascii_of_string s)) = O.
Proof.
  intros Hs. unfold GoStrings.TrimSpace in Hs.
  apply (f_equal list_ascii_of_string) in Hs.
  rewrite list_ascii_of_string_of_list_ascii in Hs.
  split.
  - rewrite <- Hs at 1. apply trimRightSpace_keeps_start, trimLeftSpace_done.
  - rewrite <- Hs at 1. apply trimRightSpace_done.
Qed.

(** A plain byte in front of a trimmed, non-empty string gives a trimmed
    string. *)
Lemma TrimSpace_cons_plain (a : ascii) (s : string) :
  plainByte a -> s <> "" -> GoStrings.TrimSpace s = s ->
  GoStrings.TrimSpace (String a s) = String a s.
Proof.
  intros Ha Hne Hs. destruct (TrimSpace_fixed_bytes s Hs) as [_ Hrev].
  unfold GoStrings.TrimSpace. cbn [list_ascii_of_string].
  unfold GoStrings.trimLeftSpace.
  rewrite dropWhileWidth_fixed by now apply spaceWidth_plain.
  unfold GoStrings.trimRightSpace. cbn [rev].
  rewrite dropWhileWidth_fixed.
  - rewrite rev_app_distr, rev_involutive. cbn.
    now rewrite string_of_list_ascii_of_string.
  - apply spaceWidthRev_snoc_plain; [exact Ha| |exact Hrev].
    intros Hnil. apply Hne. destruct s; [reflexivity|].
    apply (f_equal (@length ascii)) in Hnil. rewrite length_rev in Hnil.
    cbn in Hnil. lia.
Qed.

Lemma plainByte_gt : plainByte ">"%char.
Proof. split; [vm_compute|]; reflexivity. Qed.

Lemma plainByte_eq : plainByte "="%char.
Proof. split; [vm_compute|]; reflexivity. Qed.

Lemma TrimLeft_length (s cutset : string) :
  (String.length (GoStrings.TrimLeft s cutset) <= String.length s)%nat.
Proof.
  induction s as [|a s IH]; cbn; [lia|].
  destruct (GoStrings.inCutset a cutset); cbn; lia.
Qed.

Lemma TrimLeft_fixed_head (a : ascii) (rest cutset : string) :
  GoStrings.TrimLeft (String a rest) cutset = String a rest ->
  GoStrings.inCutset a cutset = false.
Proof.
  cbn. destruct (GoStrings.inCutset a cutset); [|reflexivity].
  intros H. pose proof (TrimLeft_length rest cutset) as Hle.
  rewrite H in Hle. cbn in Hle. lia.
Qed.

Lemma TrimLeft_head_out (a : ascii) (rest cutset : string) :
  GoStrings.inCutset a cutset = false ->
  GoStrings.TrimLeft (String a rest) cutset = String a rest.
Proof. intros H. cbn. now rewrite H. Qed.

Lemma HasPrefix_cons (a c : ascii) (rest tail : string) :
  GoStrings.HasPrefix (String a rest) (String c tail)
  = if Ascii.eqb c a then GoStrings.HasPrefix rest tail else false.
Proof.
  unfold GoStrings.HasPrefix. cbn [String.prefix].
  destruct (ascii_dec c a) as [->|Hne].
  - now rewrite Ascii.eqb_refl.
  - destruct (Ascii.eqb_spec c a); [contradiction|reflexivity].
Qed.

Lemma HasPrefix_head (a c : ascii) (rest tail : string) :
  a <> c -> GoStrings.HasPrefix (String a rest) (String c tail) = false.
Proof.
  intros Hne. rewrite HasPrefix_cons.
  destruct (Ascii.eqb_spec c a); [congruence|reflexivity].
Qed.

(** X22: the three forms of a requirement agree.  For a literal that is
    trimmed, not empty and does not start with ['>'] or ['='], a tag
    satisfies [>=literal] exactly when it satisfies [>literal] or [literal]
    itself, and it never satisfies both of these two. *)
Theorem X22_operators_agree (literal tag : string) :
  GoStrings.TrimSpace literal = literal -> literal <> "" ->
  GoStrings.TrimLeft literal ">=" = literal ->
  versionRequired (String.append ">=" literal) tag
  = versionRequired (String.append ">" literal) tag || versionRequired literal tag
  /\ versionRequired (String.append ">" literal) tag && versionRequired literal tag
     = false.
Proof.
  intros Htrim Hne Hop.
  destruct literal as [|a rest] eqn:Hlit; [congruence|]. rewrite <- Hlit in *.
  assert (Hcut : GoStrings.inCutset a ">=" = false).
  { rewrite Hlit in Hop. now apply TrimLeft_fixed_head in Hop. }
  assert (Hgt : a <> ">"%char).
  { intros ->. discriminate. }
  assert (Heq : a <> "="%char).
  { intros ->. discriminate. }
  assert (T1 : GoStrings.TrimLeft literal ">" = literal).
  { rewrite Hlit. apply TrimLeft_head_out. cbn.
    destruct (Ascii.eqb_spec a ">"%char); [contradiction|reflexivity]. }
  assert (P1 : GoStrings.HasPrefix literal ">" = false).
  { rewrite Hlit. now apply HasPrefix_head. }
  assert (P2 : GoStrings.HasPrefix literal ">=" = false).
  { rewrite Hlit. now apply HasPrefix_head. }
  assert (Hc3 : versionRequired literal tag
                = semver.Equals (versionOf tag) (versionOf literal)).
  { rewrite (versionRequired_trimmed literal tag Htrim Hne). now rewrite P2, P1. }
  assert (Htrim2 : GoStrings.TrimSpace (String ">"%char literal) = String ">"%char literal).
  { now apply TrimSpace_cons_plain; [apply plainByte_gt| |]. }
  assert (Hc2 : versionRequired (String.append ">" literal) tag
                = semver.GT (versionOf tag) (versionOf literal)).
  { change (String.append ">" literal) with (String ">"%char literal).
    rewrite (versionRequired_trimmed _ tag Htrim2) by discriminate.
    assert (Q1 : GoStrings.HasPrefix (String ">"%char literal) ">=" = false).
    { rewrite Hlit, HasPrefix_cons, Ascii.eqb_refl. now apply HasPrefix_head. }
    assert (Q2 : GoStrings.HasPrefix (String ">"%char literal) ">" = true)
      by (rewrite Hlit; reflexivity).
    rewrite Q1, Q2.
    assert (Q3 : GoStrings.TrimLeft (String ">"%char literal) ">"
                 = GoStrings.TrimLeft literal ">") by reflexivity.
    now rewrite Q3, T1. }
  assert (Htrim1 : GoStrings.TrimSpace (String ">"%char (String "="%char literal))
                   = String ">"%char (String "="%char literal)).
  { apply TrimSpace_cons_plain; [apply plainByte_gt|discriminate|].
    now apply TrimSpace_cons_plain; [apply plainByte_eq| |]. }
  assert (Hc1 : versionRequired (String.append ">=" literal) tag
                = semver.GTE (versionOf tag) (versionOf literal)).
  { change (String.append ">=" literal)
      with (String ">"%char (String "="%char literal)).
    rewrite (versionRequired_trimmed _ tag Htrim1) by discriminate.
    assert (Q1 : GoStrings.HasPrefix (String ">"%char (String "="%char literal)) ">="
                 = true) by (rewrite Hlit; reflexivity).
    assert (Q3 : GoStrings.TrimLeft (String ">"%char (String "="%char literal)) ">="
                 = GoStrings.TrimLeft literal ">=") by reflexivity.
    now rewrite Q1, Q3, Hop. }
  rewrite Hc1, Hc2, Hc3. unfold semver.GTE, semver.GT, semver.Equals.
  destruct (Compare_range (versionOf tag) (versionOf literal)) as [H|[H|H]];
    rewrite H; split; reflexivity.
Qed.

Lemma X22_operators_agree_witness :
  versionRequired (String.append ">=" "v1.3.0") "1.3.0"
  = versionRequired (String.append ">" "v1.3.0") "1.3.0"
    || versionRequired "v1.3.0" "1.3.0"
  /\ versionRequired (String.append ">" "v1.3.0") "1.3.0"
     && versionRequired "v1.3.0" "1.3.0" = false.
Proof.
  apply (X22_operators_agree "v1.3.0" "1.3.0"); [reflexivity|discriminate|reflexivity].
Defined.

(** ** A package without tests *)

Lemma plainByte_not_continuation (n : ascii) :
  plainByte n ->
  (forall a, GoStrings.spaceRune2 a n = false)
  /\ (forall a c, GoStrings.spaceRune3 a n c = false)
  /\ (forall a b, GoStrings.spaceRune3 a b n = false).
Proof.
  intros [Hlt _]. repeat split.
  - intros a. unfold GoStrings.spaceRune2.
    destruct (N.eqb_spec (GoStrings.byte_of n) 133); [lia|].
    destruct (N.eqb_spec (GoStrings.byte_of n) 160); [lia|].
    now rewrite andb_false_r.
  - intros a c. unfold GoStrings.spaceRune3. cbv zeta.
    destruct (N.eqb_spec (GoStrings.byte_of n) 154); [lia|].
    destruct (N.eqb_spec (GoStrings.byte_of n) 128); [lia|].
    destruct (N.eqb_spec (GoStrings.byte_of n) 129); [lia|].
    now rewrite !andb_false_r.
  - intros a b. unfold GoStrings.spaceRune3. cbv zeta.
    destruct (N.leb_spec 128 (GoStrings.byte_of n)); [lia|].
    destruct (N.eqb_spec (GoStrings.byte_of n) 128); [lia|].
    destruct (N.eqb_spec (GoStrings.byte_of n) 168); [lia|].
    destruct (N.eqb_spec (GoStrings.byte_of n) 169); [lia|].
    destruct (N.eqb_spec (GoStrings.byte_of n) 175); [lia|].
    destruct (N.eqb_spec (GoStrings.byte_of n) 159); [lia|].
    now rewrite !andb_false_r.
Qed.

(** White space runes in front of a plain byte end before it. *)
Lemma spaceWidth_before_plain (p rest : list ascii) (n : ascii) :
  plainByte n -> (GoStrings.spaceWidth (p ++ n :: rest) <= length p)%nat.
Proof.
  intros Hn. destruct (plainByte_not_continuation n Hn) as (H2 & H3 & H4).
  destruct p as [|x0 [|x1 [|x2 p]]]; cbn [app length].
  - now rewrite spaceWidth_plain.
  - unfold GoStrings.spaceWidth. rewrite H2.
    destruct (GoStrings.isAsciiSpace x0); [lia|].
    destruct rest; [lia|]. rewrite H3. lia.
  - unfold GoStrings.spaceWidth. rewrite H4.
    destruct (GoStrings.isAsciiSpace x0); [lia|].
    destruct (GoStrings.spaceRune2 x0 x1); lia.
  - unfold GoStrings.spaceWidth.
    destruct (GoStrings.isAsciiSpace x0); [lia|].
    destruct (GoStrings.spaceRune2 x0 x1); [lia|].
    destruct (GoStrings.spaceRune3 x0 x1 x2); lia.
Qed.

Lemma trimLeft_before_plain (fuel : nat) (p rest : list ascii) (n : ascii) :
  plainByte n ->
  exists p', GoStrings.dropWhileWidth GoStrings.spaceWidth fuel (p ++ n :: rest)
             = p' ++ n :: rest.
Proof.
  intros Hn. revert p. induction fuel as [|fuel IH]; intros p; cbn.
  - now exists p.
  - pose proof (spaceWidth_before_plain p rest n Hn) as Hle.
    destruct (GoStrings.spaceWidth (p ++ n :: rest)) as [|k]; [now exists p|].
    rewrite drop_app_le by exact Hle. apply IH.
Qed.

Lemma spaceWidthRev_plain (t : ascii) (rest : list ascii) :
  plainByte t -> GoStrings.spaceWidthRev (t :: rest) = O.
Proof.
  intros Ht. destruct (plainByte_not_continuation t Ht) as (H2 & _ & H4).
  destruct Ht as [_ Hsp]. unfold GoStrings.spaceWidthRev. rewrite Hsp.
  destruct rest as [|b [|c r]]; rewrite ?H2, ?H4; reflexivity.
Qed.

Lemma trimRight_spaces_before_plain (fuel : nat) (z rest : list ascii) (t : ascii) :
  plainByte t -> Forall (fun a => GoStrings.isAsciiSpace a = true) z ->
  (length z <= fuel)%nat ->
  GoStrings.dropWhileWidth GoStrings.spaceWidthRev fuel (z ++ t :: rest) = t :: rest.
Proof.
  intros Ht Hz. revert fuel. induction Hz as [|z0 z Hz0 Hz IH]; intros fuel Hlen.
  - apply dropWhileWidth_fixed. now apply spaceWidthRev_plain.
  - destruct fuel as [|fuel]; [cbn in Hlen; lia|].
    cbn [GoStrings.dropWhileWidth app].
    assert (Hw : GoStrings.spaceWidthRev (z0 :: z ++ t :: rest) = 1%nat).
    { unfold GoStrings.spaceWidthRev. now rewrite Hz0. }
    rewrite Hw. cbn [drop]. apply IH. cbn in Hlen. lia.
Qed.

Lemma string_of_list_ascii_app (a b : list ascii) :
  string_of_list_ascii (a ++ b)
  = String.append (string_of_list_ascii a) (string_of_list_ascii b).
Proof. induction a as [|x a IH]; simpl; [reflexivity|rewrite IH; reflexivity]. Qed.

Lemma list_ascii_of_string_app (a b : string) :
  list_ascii_of_string (String.append a b)
  = list_ascii_of_string a ++ list_ascii_of_string b.
Proof.
  induction a as [|x a IH]; [reflexivity|].
  change (x :: list_ascii_of_string (String.append a b)
          = x :: (list_ascii_of_string a ++ list_ascii_of_string b)).
  now rewrite IH.
Qed.

Lemma substring_whole (s : string) : String.substring 0 (String.length s) s = s.
Proof. induction s as [|a s IH]; simpl; [reflexivity|now f_equal]. Qed.

Lemma length_append (p s : string) :
  String.length (String.append p s) = (String.length p + String.length s)%nat.
Proof.
  induction p as [|a p IH]; [reflexivity|].
  change (S (String.length (String.append p s))
          = S (String.length p + String.length s)). now rewrite IH.
Qed.

Lemma substring_append (p s : string) :
  String.substring (String.length p) (String.length s) (String.append p s) = s.
Proof. induction p as [|a p IH]; [apply substring_whole|exact IH]. Qed.

Lemma HasSuffix_append (p suffix : string) : HasSuffix (String.append p suffix) suffix = true.
Proof.
  unfold HasSuffix. rewrite length_append.
  replace (String.length p + String.length suffix - String.length suffix)%nat
    with (String.length p) by lia.
  rewrite substring_append, String.eqb_refl, andb_true_r. apply Nat.leb_le. lia.
Qed.

(** The message is found after any text and before any ASCII white
    space. *)
Lemma no_packages_message_found (before after : string) :
  asciiSpaces after ->
  HasSuffix
    (GoStrings.TrimSpace
       (String.append before (String.append "no packages to test" after)))
    "no packages to test" = true.
Proof.
  intros Hafter. unfold GoStrings.TrimSpace.
  rewrite !list_ascii_of_string_app.
  set (p := list_ascii_of_string before). set (z := list_ascii_of_string after).
  change (list_ascii_of_string "no packages to test")
    with ("n"%char :: list_ascii_of_string "o packages to test").
  cbn [app].
  assert (Hn : plainByte "n"%char) by (split; [vm_compute|]; reflexivity).
  assert (Ht : plainByte "t"%char) by (split; [vm_compute|]; reflexivity).
  unfold GoStrings.trimLeftSpace.
  destruct (trimLeft_before_plain
              (length (p ++ "n"%char :: list_ascii_of_string "o packages to test" ++ z))
              p (list_ascii_of_string "o packages to test" ++ z) "n"%char Hn)
    as [p' ->].
  unfold GoStrings.trimRightSpace.
  change ("n"%char :: list_ascii_of_string "o packages to test" ++ z)
    with ((list_ascii_of_string "no packages to tes" ++ ["t"%char]) ++ z).
  rewrite !app_assoc, !rev_app_distr. cbn [rev app]. rewrite <- !app_assoc. cbn [app].
  rewrite trimRight_spaces_before_plain.
  - cbn [rev]. rewrite !rev_app_distr, !rev_involutive. cbn [rev app].
    rewrite <- !app_assoc. cbn [app].
    change (list_ascii_of_string "no packages to tes" ++ ["t"%char])
      with (list_ascii_of_string "no packages to test").
    rewrite string_of_list_ascii_app, string_of_list_ascii_of_string.
    apply HasSuffix_append.
  - exact Ht.
  - apply List.Forall_forall. intros a Ha. apply in_rev in Ha.
    unfold asciiSpaces in Hafter. rewrite List.Forall_forall in Hafter. now apply Hafter.
  - rewrite length_rev, !length_app. cbn [length]. lia.
Qed.

(** X23: a package without tests is no error.  When the command fails and
    its standard error ends, up to ASCII white space, with "no packages to
    test", whatever comes before, [runBenchmark] answers with the empty set
    and no error; [runBenchmarks] then records nothing for the benchmark
    and goes on.  When the command succeeds its standard error is not
    looked at. *)
Theorem X23_no_packages_to_test (ParseSet : string -> option parse.Set_)
    (out before after : string) (env : Env) (command tagVersion : string)
    (set : BenchSet) (w : World) (b : Benchmark) :
  asciiSpaces after ->
  let stderr := String.append before (String.append "no packages to test" after) in
  runBenchmarkOutcome ParseSet (mkCommandRun true out stderr) = Some ∅
  /\ runBenchmarkOutcome ParseSet (mkCommandRun false out stderr) = ParseSet out
  /\ (runBenchmark env (commands w) (worktree w) command b
      = runBenchmarkOutcome ParseSet (mkCommandRun true out stderr) ->
      fst (runBenchmarksStep env command tagVersion (set, w) b) = set).
Proof.
  intros Hafter stderr.
  assert (Hout : runBenchmarkOutcome ParseSet (mkCommandRun true out stderr) = Some ∅).
  { unfold runBenchmarkOutcome. cbn [cmdFailed cmdStderr]. subst stderr.
    now rewrite no_packages_message_found. }
  split; [exact Hout|]. split; [reflexivity|].
  rewrite Hout. intros Hrun. unfold runBenchmarksStep.
  destruct (_ && _); [reflexivity|]. rewrite Hrun. reflexivity.
Qed.

Lemma X23_no_packages_to_test_witness :
  runBenchmarkOutcome (fun _ => None)
    (mkCommandRun true ""
       (String.append "exit status 1: "
          (String.append "no packages to test" (String "010"%char ""))))
  = Some ∅.
Proof.
  refine (proj1 (X23_no_packages_to_test (fun _ => None) "" "exit status 1: "
                   (String "010"%char "")
                   (Examples.env true Examples.resetsSucceed [] Examples.measure)
                   "go" "" ∅ Examples.world0 Examples.benchmarkA1 _)).
  repeat constructor.
Defined.
